(** * utrack: the UDP tracker worker of [main.cpp]

    A shallow embedding of the request dispatcher of utrack (a BitTorrent
    UDP tracker, BEP-15) and of its stateless connection-id scheme.

    The development follows [main.cpp]:
    - bytes and machine integers (host memory, [htonl], [be64toh]);
    - the OpenSSL SHA-1 interface used by [gen_secret_digest];
    - [generate_connection_id] / [verify_connection_id];
    - [respond] and one iteration of the [for (;;)] loop of [tracker_thread].

    The operating system is an oracle: what [recvfrom] delivers, what each
    send system call returns, what [rand()] returns and what an
    uninitialised stack object holds are inputs of an iteration. *)

From Stdlib Require Import ZArith List Lia Bool.
From Stdlib Require Import Strings.Byte.
From stdpp Require Import base decidable countable gmap list fin_maps.
Import ListNotations.

Local Open Scope Z_scope.

(* ===================================================================== *)
(** * Bytes and machine integers *)
(* ===================================================================== *)

Definition Z_of_byte (b : byte) : Z := Z.of_N (Byte.to_N b).

Definition byte_of_Z (z : Z) : byte :=
  match Byte.of_N (Z.to_N (z mod 256)) with
  | Some b => b
  | None => x00
  end.

(** Little-endian reading of a byte string as an unsigned number. *)
Fixpoint le_decode (bs : list byte) : Z :=
  match bs with
  | [] => 0
  | b :: bs' => Z_of_byte b + 256 * le_decode bs'
  end.

(** The [n] low-order bytes of [z], least significant first. *)
Fixpoint le_encode (n : nat) (z : Z) : list byte :=
  match n with
  | O => []
  | S n' => byte_of_Z z :: le_encode n' (z / 256)
  end.

(** Network byte order. *)
Definition be_decode (bs : list byte) : Z := le_decode (rev bs).
Definition be_encode (n : nat) (z : Z) : list byte := rev (le_encode n z).

(** [n] bytes starting at offset [off] of a buffer. *)
Definition field (off n : nat) (buf : list byte) : list byte :=
  firstn n (skipn off buf).

(** Overwrite [length bs] bytes of [buf] at offset [off] (in range). *)
Definition write_at (off : nat) (bs buf : list byte) : list byte :=
  firstn off buf ++ bs ++ skipn (off + length bs) buf.

(** Wrap-around of the C integer types of the program. *)
Definition wrap_u32 (z : Z) : Z := z mod 2 ^ 32.
Definition wrap_int (z : Z) : Z := (z + 2 ^ 31) mod 2 ^ 32 - 2 ^ 31.

(** What the build fixes and [main.cpp] does not define: the byte order
    of the host (behind [htonl] and the macros of [endian.hpp]),
    [RAND_MAX] of the C library, and the constant [max_scrape_responses]
    of [messages.hpp]. *)
Class Platform := {
  host_big_endian : bool;
  RAND_MAX : Z;
  max_scrape_responses : Z
}.

Section HostMemory.
Context {plat : Platform}.

(** An unsigned integer object read from / written to host memory. *)
Definition load (bs : list byte) : Z :=
  if host_big_endian then be_decode bs else le_decode bs.

Definition store (n : nat) (z : Z) : list byte :=
  if host_big_endian then be_encode n z else le_encode n z.

Definition bswap (n : nat) (z : Z) : Z := be_decode (le_encode n z).

Definition htonl (x : Z) : Z := if host_big_endian then wrap_u32 x else bswap 4 x.
Definition ntohl (x : Z) : Z := htonl x.
Definition be64toh (x : Z) : Z :=
  if host_big_endian then x mod 2 ^ 64 else bswap 8 x.

End HostMemory.

(* ===================================================================== *)
(** * OpenSSL's SHA-1 interface *)
(* ===================================================================== *)

(** [<openssl/sha.h>]: a context, [SHA1_Update] absorbing bytes and
    [SHA1_Final] writing the digest. *)
Class OpenSSL := {
  SHA_CTX : Type;
  SHA1_Update : SHA_CTX -> list byte -> SHA_CTX;
  SHA1_Final : SHA_CTX -> list byte
}.

Definition SHA_DIGEST_LENGTH : nat := 20.

(** The contract of the library the tracker relies on: a digest is 20
    bytes, and absorbing is streaming. *)
Definition SHA1_contract {ssl : OpenSSL} : Prop :=
  (forall c, length (SHA1_Final c) = SHA_DIGEST_LENGTH) /\
  (forall c a b, SHA1_Update (SHA1_Update c a) b = SHA1_Update c (a ++ b)).

(** A reference SHA-1 (FIPS 180-4) with OpenSSL's streaming interface. *)
Module Sha1.

Definition rotl (n x : Z) : Z :=
  wrap_u32 (Z.lor (Z.shiftl x n) (Z.shiftr x (32 - n))).

Record hstate := { h0 : Z; h1 : Z; h2 : Z; h3 : Z; h4 : Z }.

Record ctx := { h : hstate; pending : list byte; total : Z }.

Definition init_hstate : hstate :=
  {| h0 := 0x67452301; h1 := 0xEFCDAB89; h2 := 0x98BADCFE;
     h3 := 0x10325476; h4 := 0xC3D2E1F0 |}.

Definition SHA1_Init : ctx := {| h := init_hstate; pending := []; total := 0 |}.

(** The sixteen big-endian words of a 64-byte block. *)
Fixpoint words (n : nat) (bs : list byte) : list Z :=
  match n with
  | O => []
  | S n' => be_decode (firstn 4 bs) :: words n' (skipn 4 bs)
  end.

(** Message schedule, most recent word first. *)
Fixpoint schedule (n : nat) (rw : list Z) : list Z :=
  match n with
  | O => rw
  | S n' =>
      let w := rotl 1 (Z.lxor (Z.lxor (nth 2 rw 0) (nth 7 rw 0))
                              (Z.lxor (nth 13 rw 0) (nth 15 rw 0))) in
      schedule n' (w :: rw)
  end.

Definition round_f (t : nat) (b c d : Z) : Z :=
  if (t <? 20)%nat then Z.lor (Z.land b c) (Z.land (Z.lxor b 0xFFFFFFFF) d)
  else if (t <? 40)%nat then Z.lxor (Z.lxor b c) d
  else if (t <? 60)%nat then Z.lor (Z.lor (Z.land b c) (Z.land b d)) (Z.land c d)
  else Z.lxor (Z.lxor b c) d.

Definition round_k (t : nat) : Z :=
  if (t <? 20)%nat then 0x5A827999
  else if (t <? 40)%nat then 0x6ED9EBA1
  else if (t <? 60)%nat then 0x8F1BBCDC
  else 0xCA62C1D6.

Definition round (s : hstate) (tw : nat * Z) : hstate :=
  let '(t, w) := tw in
  {| h0 := wrap_u32 (rotl 5 (h0 s) + round_f t (h1 s) (h2 s) (h3 s) + h4 s + round_k t + w);
     h1 := h0 s; h2 := rotl 30 (h1 s); h3 := h2 s; h4 := h3 s |}.

Definition compress (s : hstate) (block : list byte) : hstate :=
  let ws := rev (schedule 64 (rev (words 16 block))) in
  let r := fold_left round (combine (seq 0 80) ws) s in
  {| h0 := wrap_u32 (h0 s + h0 r); h1 := wrap_u32 (h1 s + h1 r);
     h2 := wrap_u32 (h2 s + h2 r); h3 := wrap_u32 (h3 s + h3 r);
     h4 := wrap_u32 (h4 s + h4 r) |}.

Definition update_byte (c : ctx) (b : byte) : ctx :=
  let p := pending c ++ [b] in
  if (length p =? 64)%nat
  then {| h := compress (h c) p; pending := []; total := total c + 1 |}
  else {| h := h c; pending := p; total := total c + 1 |}.

Definition update (c : ctx) (bs : list byte) : ctx := fold_left update_byte bs c.

Definition padding (c : ctx) : list byte :=
  let used := length (pending c) in
  let zeros := if (used <? 56)%nat then (55 - used)%nat else (119 - used)%nat in
  x80 :: repeat x00 zeros ++ be_encode 8 (8 * total c).

Definition digest_bytes (s : hstate) : list byte :=
  be_encode 4 (h0 s) ++ be_encode 4 (h1 s) ++ be_encode 4 (h2 s) ++
  be_encode 4 (h3 s) ++ be_encode 4 (h4 s).

Definition final (c : ctx) : list byte :=
  let tail := pending c ++ padding c in
  let s1 := compress (h c) (firstn 64 tail) in
  let s2 := if (length tail <=? 64)%nat then s1 else compress s1 (skipn 64 tail) in
  digest_bytes s2.

End Sha1.

Definition sha1_openssl : OpenSSL :=
  {| SHA_CTX := Sha1.ctx; SHA1_Update := Sha1.update; SHA1_Final := Sha1.final |}.

(* ===================================================================== *)
(** * Swarms *)
(* ===================================================================== *)

(** [sha1_hash] of [hash.hpp] is 20 bytes compared byte-wise: a
    [list byte] as a key. *)
#[export] Instance byte_eq_dec : EqDecision byte := Byte.byte_eq_dec.
#[export] Instance byte_countable : Countable byte :=
  inj_countable Byte.to_N Byte.of_N Byte.of_to_N.

(** The interface of [swarm.hpp] as [tracker_thread] uses it:
    - [new swarm];
    - [swarm::announce(hdr, &buf, &len, &downloaders, &seeds)], which
      reads the announce message in the receive buffer, updates the swarm
      and yields the peer bytes ([len] bytes at [buf]) and the two
      counters; the wall clock it stamps peers with is passed explicitly;
    - [swarm::scrape(&seeds, &download_count, &downloaders)]. *)
Class SwarmImpl := {
  swarm : Type;
  swarm_new : swarm;
  swarm_announce : swarm -> list byte -> Z -> swarm * (list byte * Z * Z);
  swarm_scrape : swarm -> Z * Z * Z
}.

(* ===================================================================== *)
(** * Global state of the tracker *)
(* ===================================================================== *)

(** [sockaddr_in]: the integer objects [sin_addr.s_addr] (32 bits) and
    [sin_port] (16 bits) as they sit in memory. *)
Record sockaddr_in := { sin_addr : Z; sin_port : Z }.

(** The stats counters, all [uint32_t]. *)
Record stats := {
  connects : Z; announces : Z; scrapes : Z;
  errors : Z; bytes_out : Z; bytes_in : Z
}.

Inductive counter := Connects | Announces | Scrapes | Errors | BytesOut | BytesIn.

(** [__sync_fetch_and_add(&counter, v)] on a [uint32_t]. *)
Definition sync_fetch_and_add (c : counter) (v : Z) (s : stats) : stats :=
  match c with
  | Connects =>
      {| connects := wrap_u32 (connects s + v); announces := announces s;
         scrapes := scrapes s; errors := errors s;
         bytes_out := bytes_out s; bytes_in := bytes_in s |}
  | Announces =>
      {| connects := connects s; announces := wrap_u32 (announces s + v);
         scrapes := scrapes s; errors := errors s;
         bytes_out := bytes_out s; bytes_in := bytes_in s |}
  | Scrapes =>
      {| connects := connects s; announces := announces s;
         scrapes := wrap_u32 (scrapes s + v); errors := errors s;
         bytes_out := bytes_out s; bytes_in := bytes_in s |}
  | Errors =>
      {| connects := connects s; announces := announces s;
         scrapes := scrapes s; errors := wrap_u32 (errors s + v);
         bytes_out := bytes_out s; bytes_in := bytes_in s |}
  | BytesOut =>
      {| connects := connects s; announces := announces s;
         scrapes := scrapes s; errors := errors s;
         bytes_out := wrap_u32 (bytes_out s + v); bytes_in := bytes_in s |}
  | BytesIn =>
      {| connects := connects s; announces := announces s;
         scrapes := scrapes s; errors := errors s;
         bytes_out := bytes_out s; bytes_in := wrap_u32 (bytes_in s + v) |}
  end.

Section Tracker.
Context {plat : Platform} {ssl : OpenSSL} {sw : SwarmImpl}.

(** The globals of [main.cpp] a worker touches, and the worker's receive
    buffer ([uint64_t buffer[1500/8]], which lives across iterations). *)
Record tracker := {
  secret : SHA_CTX;
  allow_alternate_ip : bool;
  swarms : gmap (list byte) swarm;
  counters : stats;
  buffer : list byte
}.

Definition with_counters (s : stats) (t : tracker) : tracker :=
  {| secret := secret t; allow_alternate_ip := allow_alternate_ip t;
     swarms := swarms t; counters := s; buffer := buffer t |}.

Definition with_swarms (m : gmap (list byte) swarm) (t : tracker) : tracker :=
  {| secret := secret t; allow_alternate_ip := allow_alternate_ip t;
     swarms := m; counters := counters t; buffer := buffer t |}.

Definition with_buffer (b : list byte) (t : tracker) : tracker :=
  {| secret := secret t; allow_alternate_ip := allow_alternate_ip t;
     swarms := swarms t; counters := counters t; buffer := b |}.

Definition count (c : counter) (v : Z) (t : tracker) : tracker :=
  with_counters (sync_fetch_and_add c v (counters t)) t.

(* ===================================================================== *)
(** * The connection-id *)
(* ===================================================================== *)

Definition gen_secret_digest (sec : SHA_CTX) (from : sockaddr_in) : list byte :=
  let ctx := sec in
  let ctx := SHA1_Update ctx (store 4 (sin_addr from)) in
  let ctx := SHA1_Update ctx (store 2 (sin_port from)) in
  SHA1_Final ctx.

(** [memcpy((char* )&ret, digest, sizeof(ret))] into a [uint64_t]. *)
Definition generate_connection_id (sec : SHA_CTX) (from : sockaddr_in) : Z :=
  let digest := gen_secret_digest sec from in
  load (firstn 8 digest).

(** [memcmp((char* )&conn_id, digest, sizeof(conn_id)) == 0]. *)
Definition verify_connection_id (sec : SHA_CTX) (conn_id : Z) (from : sockaddr_in) : bool :=
  let digest := gen_secret_digest sec from in
  bool_decide (store 8 conn_id = firstn 8 digest).


(* ===================================================================== *)
(** * Messages *)
(* ===================================================================== *)

(** Modelled from the spec: the enum of action codes of [messages.hpp]
    (section 4.1: connect 0, announce 1, scrape 2). *)
Definition action_connect : Z := 0.
Definition action_announce : Z := 1.
Definition action_scrape : Z := 2.

(** Modelled from the spec: the layout of [udp_announce_message] of
    [messages.hpp], the structure [tracker_thread] reads the receive
    buffer through (section 4.1): [connection_id] u64 at 0, [action] u32
    at 8, [transaction_id] u32 at 12, [hash] at 16, [peer_id] at 36,
    [downloaded], [left], [uploaded] u64 at 56, 64, 72, [event] u32 at 80,
    [ip] u32 at 84, [key] at 88, [num_want] at 92, [port] u16 at 96. *)
Definition hdr_connection_id (buf : list byte) : Z := load (field 0 8 buf).
Definition hdr_action (buf : list byte) : Z := load (field 8 4 buf).
Definition hdr_transaction_id (buf : list byte) : Z := load (field 12 4 buf).
Definition hdr_hash (buf : list byte) : list byte := field 16 20 buf.
Definition hdr_ip (buf : list byte) : Z := load (field 84 4 buf).
Definition set_hdr_ip (ip : Z) (buf : list byte) : list byte :=
  write_at 84 (store 4 ip) buf.

(** Modelled from the spec: [udp_scrape_message] of [messages.hpp], the
    16-byte header followed by the array [hash] of 20-byte entries. *)
Definition req_hash (i : nat) (buf : list byte) : list byte :=
  field (16 + 20 * i) 20 buf.

(** Modelled from the spec: [udp_connect_response] of [messages.hpp]
    ([action] u32, [transaction_id] u32, [connection_id] u64) as the bytes
    of the object. *)
Record udp_connect_response := {
  cr_action : Z; cr_transaction_id : Z; cr_connection_id : Z
}.

Definition connect_response_bytes (r : udp_connect_response) : list byte :=
  store 4 (cr_action r) ++ store 4 (cr_transaction_id r) ++
  store 8 (cr_connection_id r).

(** Modelled from the spec: [udp_announce_response] of [messages.hpp]
    ([action], [transaction_id], [interval], [downloaders], [seeds], all
    u32). *)
Record udp_announce_response := {
  ar_action : Z; ar_transaction_id : Z; ar_interval : Z;
  ar_downloaders : Z; ar_seeds : Z
}.

Definition announce_response_bytes (r : udp_announce_response) : list byte :=
  store 4 (ar_action r) ++ store 4 (ar_transaction_id r) ++
  store 4 (ar_interval r) ++ store 4 (ar_downloaders r) ++
  store 4 (ar_seeds r).

(** Modelled from the spec: [udp_scrape_response] of [messages.hpp]
    ([action], [transaction_id], then [max_scrape_responses] entries
    [data] of [seeds], [download_count], [downloaders], all u32). *)
Record scrape_data := { seeds : Z; download_count : Z; downloaders : Z }.

Record udp_scrape_response := {
  sr_action : Z; sr_transaction_id : Z; sr_data : list scrape_data
}.

Definition scrape_data_bytes (d : scrape_data) : list byte :=
  store 4 (seeds d) ++ store 4 (download_count d) ++ store 4 (downloaders d).

Definition scrape_response_bytes (r : udp_scrape_response) : list byte :=
  store 4 (sr_action r) ++ store 4 (sr_transaction_id r) ++
  concat (map scrape_data_bytes (sr_data r)).

(* ===================================================================== *)
(** * The operating system *)
(* ===================================================================== *)

(** What a send or receive system call returns: a count, or -1 with
    [errno == EINTR], or -1 with another [errno]. *)
Inductive syscall_result :=
  | Returned (n : Z)
  | Interrupted
  | Failed (errno : Z).

(** A datagram handed to [sendto] / [sendmsg], with its destination. *)
Record packet := { pkt_to : sockaddr_in; pkt_data : list byte }.

(** One send system call and what it returned. *)
Definition send_event : Type := packet * syscall_result.

(** What [recvfrom] yields: a datagram and its source, or an error. *)
Inductive recv_result :=
  | Received (from : sockaddr_in) (wire : list byte)
  | RecvInterrupted
  | RecvFailed (errno : Z).

(** The inputs of one iteration besides the datagram: the results of the
    successive send system calls, the value of [rand()], the wall clock,
    and the indeterminate content of the [data] array of the scrape
    response, which is declared without an initialiser. *)
Record env := {
  send_results : list syscall_result;
  rand_value : Z;
  time_now : Z;
  uninit_data : nat -> scrape_data
}.

(** The datagrams that left the host: send calls that returned a count. *)
Definition delivered (tr : list send_event) : list packet :=
  omap (fun ev : send_event =>
          match snd ev with Returned _ => Some (fst ev) | _ => None end) tr.

(** [sizeof(buffer)] with [uint64_t buffer[1500/8]]. *)
Definition buffer_size : nat := 1496.

(** [recvfrom] stores at most [sizeof(buffer)] bytes at the start of the
    buffer and leaves the rest of it as it was. *)
Definition recv_into (buf wire : list byte) : list byte :=
  let data := firstn buffer_size wire in
  data ++ skipn (length data) buf.

(* ===================================================================== *)
(** * The worker *)
(* ===================================================================== *)

(** How an iteration of the loop ends: at the next [recvfrom], with the
    thread returning, or (the oracle being a finite prefix) inside a send
    system call whose result is not known yet. *)
Inductive control := NextDatagram | ThreadExit | InSend.

Record outcome := {
  out_state : tracker;
  out_trace : list send_event;
  out_control : control
}.

Definition finish (t : tracker) (c : control) : outcome :=
  {| out_state := t; out_trace := []; out_control := c |}.

(** [respond]: send a packet and retry on EINTR. Returns [Some true] for
    the C function returning 1 (failure), [Some false] for 0. *)
Fixpoint respond (os : list syscall_result) (pkt : packet) (s : stats)
  : stats * list send_event * option bool :=
  match os with
  | [] => (s, [], None)
  | Interrupted :: os' =>
      let '(s', tr, r) := respond os' pkt s in
      (s', (pkt, Interrupted) :: tr, r)
  | Failed e :: _ => (s, [(pkt, Failed e)], Some true)
  | Returned n :: _ =>
      (sync_fetch_and_add BytesOut n s, [(pkt, Returned n)], Some false)
  end.

(** [if (respond(...)) return 0; break;] *)
Definition respond_then (e : env) (pkt : packet) (t : tracker) : outcome :=
  let '(s', tr, r) := respond (send_results e) pkt (counters t) in
  {| out_state := with_counters s' t;
     out_trace := tr;
     out_control := match r with
                    | Some true => ThreadExit
                    | Some false => NextDatagram
                    | None => InSend
                    end |}.

Definition connect_magic : Z := 0x41727101980.

(** [case action_connect]. *)
Definition handle_connect (e : env) (from : sockaddr_in) (t : tracker) : outcome :=
  let hdr := buffer t in
  if negb (be64toh (hdr_connection_id hdr) =? connect_magic)
  then finish (count Errors 1 t) NextDatagram
  else
    let resp :=
      {| cr_action := htonl action_connect;
         cr_connection_id := generate_connection_id (secret t) from;
         cr_transaction_id := hdr_transaction_id hdr |} in
    let t := count Connects 1 t in
    respond_then e
      {| pkt_to := from; pkt_data := firstn 16 (connect_response_bytes resp) |} t.

(** [1680 + rand() * 240 / RAND_MAX] in [int] arithmetic. *)
Definition announce_interval (r : Z) : Z :=
  wrap_int (1680 + Z.quot (wrap_int (r * 240)) RAND_MAX).

(** The send of the announce response:
    [do { r = sendmsg(...); if (r == -1) { if (errno == EINTR) continue;
    ...; return 0; } bytes_out += r; } while (false);]
    where [continue] jumps to the test of the loop, which is [false]. *)
Definition sendmsg_once (e : env) (pkt : packet) (t : tracker) : outcome :=
  match send_results e with
  | [] => finish t InSend
  | Interrupted :: _ =>
      {| out_state := t; out_trace := [(pkt, Interrupted)];
         out_control := NextDatagram |}
  | Failed err :: _ =>
      {| out_state := t; out_trace := [(pkt, Failed err)];
         out_control := ThreadExit |}
  | Returned r :: _ =>
      {| out_state := count BytesOut r t; out_trace := [(pkt, Returned r)];
         out_control := NextDatagram |}
  end.

(** [if (!allow_alternate_ip || hdr->ip == 0) hdr->ip = from.sin_addr.s_addr;]
    on the announce message in the receive buffer. *)
Definition announce_ip (allow : bool) (from : sockaddr_in) (hdr : list byte)
  : list byte :=
  if negb allow || (hdr_ip hdr =? 0)
  then set_hdr_ip (sin_addr from) hdr
  else hdr.

(** [case action_announce]. *)
Definition handle_announce (e : env) (from : sockaddr_in) (size : Z) (t : tracker)
  : outcome :=
  if negb (verify_connection_id (secret t) (hdr_connection_id (buffer t)) from)
  then finish (count Errors 1 t) NextDatagram
  else if size <? 98
  then finish (count Errors 1 t) NextDatagram
  else
    let t := count Announces 1 t in
    let t := with_buffer (announce_ip (allow_alternate_ip t) from (buffer t)) t in
    let hdr := buffer t in
    let s := match swarms t !! hdr_hash hdr with
             | Some s => s
             | None => swarm_new
             end in
    let '(s', (buf, dl, sd)) := swarm_announce s hdr (time_now e) in
    let t := with_swarms (<[hdr_hash hdr := s']> (swarms t)) t in
    let resp :=
      {| ar_action := htonl action_announce;
         ar_transaction_id := hdr_transaction_id hdr;
         ar_interval := htonl (announce_interval (rand_value e));
         ar_downloaders := htonl dl;
         ar_seeds := htonl sd |} in
    sendmsg_once e
      {| pkt_to := from;
         pkt_data := firstn 20 (announce_response_bytes resp) ++ buf |} t.

(** [s->scrape(&resp.data[i].seeds, &resp.data[i].download_count,
    &resp.data[i].downloaders)] followed by [htonl] of the three fields. *)
Definition scrape_entry (s : swarm) : scrape_data :=
  let '(sd, dc, dl) := swarm_scrape s in
  {| seeds := htonl sd; download_count := htonl dc; downloaders := htonl dl |}.

(** The body of [for (int i = 0; i < num_hashes; ++i)] of the scrape:
    [resp.data[i]] is written only when the hash is found. *)
Definition scrape_one (m : gmap (list byte) swarm) (req : list byte)
    (data : list scrape_data) (i : nat) : list scrape_data :=
  match m !! req_hash i req with
  | Some s => <[i := scrape_entry s]> data
  | None => data
  end.

(** [(std::min)((size - 16) / 20, int(max_scrape_responses))]. *)
Definition scrape_num_hashes (size : Z) : Z :=
  Z.min (Z.quot (size - 16) 20) max_scrape_responses.

(** The scrape response object once the loop has run: [resp] is declared
    without an initialiser, [action] and [transaction_id] are assigned,
    and the loop fills the entries of the swarms it finds. *)
Definition scrape_response (e : env) (m : gmap (list byte) swarm)
    (req : list byte) (num_hashes : Z) : udp_scrape_response :=
  {| sr_action := htonl action_scrape;
     sr_transaction_id := hdr_transaction_id req;
     sr_data :=
       fold_left (scrape_one m req) (seq 0 (Z.to_nat num_hashes))
         (map (uninit_data e) (seq 0 (Z.to_nat max_scrape_responses))) |}.

(** [respond(send_socket, (char* )&resp, 8 + num_hashes * 12, ...)]. *)
Definition scrape_packet (e : env) (from : sockaddr_in)
    (m : gmap (list byte) swarm) (req : list byte) (size : Z) : packet :=
  let num_hashes := scrape_num_hashes size in
  {| pkt_to := from;
     pkt_data := firstn (Z.to_nat (8 + num_hashes * 12))
                   (scrape_response_bytes (scrape_response e m req num_hashes)) |}.

(** [case action_scrape]. *)
Definition handle_scrape (e : env) (from : sockaddr_in) (size : Z) (t : tracker)
  : outcome :=
  if negb (verify_connection_id (secret t) (hdr_connection_id (buffer t)) from)
  then finish (count Errors 1 t) NextDatagram
  else if size <? 16 + 20
  then finish (count Errors 1 t) NextDatagram
  else
    let t := count Scrapes 1 t in
    respond_then e (scrape_packet e from (swarms t) (buffer t) size) t.

(** [int size = recvfrom(udp_socket, (char* )buffer, sizeof(buffer), ...)]. *)
Definition recv_size (wire : list byte) : Z :=
  Z.of_nat (length (firstn buffer_size wire)).

(** The state once [recvfrom] has returned a datagram and [bytes_in] has
    been updated. *)
Definition after_recv (wire : list byte) (t : tracker) : tracker :=
  count BytesIn (recv_size wire) (with_buffer (recv_into (buffer t) wire) t).

(** [switch (ntohl(hdr->action))]. *)
Definition dispatch (e : env) (from : sockaddr_in) (size : Z) (t : tracker) : outcome :=
  let action := ntohl (hdr_action (buffer t)) in
  if action =? action_connect then handle_connect e from t
  else if action =? action_announce then handle_announce e from size t
  else if action =? action_scrape then handle_scrape e from size t
  else finish (count Errors 1 t) NextDatagram.

(** One iteration of the [for (;;)] loop of [tracker_thread]. *)
Definition tracker_iteration (e : env) (ev : recv_result) (t : tracker) : outcome :=
  match ev with
  | RecvInterrupted => finish t NextDatagram
  | RecvFailed _ => finish t ThreadExit
  | Received from wire =>
      let size := recv_size wire in
      let t := after_recv wire t in
      if size <? 16 then finish t NextDatagram
      else dispatch e from size t
  end.

(** The loop over the events the oracle supplies. *)
Fixpoint tracker_thread (evs : list (env * recv_result)) (t : tracker) : outcome :=
  match evs with
  | [] => finish t NextDatagram
  | (e, ev) :: evs' =>
      let o := tracker_iteration e ev t in
      match out_control o with
      | NextDatagram =>
          let o' := tracker_thread evs' (out_state o) in
          {| out_state := out_state o';
             out_trace := out_trace o ++ out_trace o';
             out_control := out_control o' |}
      | _ => o
      end
  end.

(** What a drop that is counted looks like: nothing is sent, the loop
    goes on, [errors] is one more, and the swarm table plays no part: it
    is left as it was, and with any other table in its place the same
    happens. *)
Definition dropped_and_counted (e : env) (from : sockaddr_in) (wire : list byte)
    (t : tracker) : Prop :=
  let o := tracker_iteration e (Received from wire) t in
  out_trace o = [] /\
  out_control o = NextDatagram /\
  errors (counters (out_state o)) = wrap_u32 (errors (counters t) + 1) /\
  (0 <= errors (counters t) < 2 ^ 32 - 1 ->
   errors (counters (out_state o)) = errors (counters t) + 1) /\
  swarms (out_state o) = swarms t /\
  (forall m : gmap (list byte) swarm,
     let o' := tracker_iteration e (Received from wire) (with_swarms m t) in
     out_trace o' = out_trace o /\
     out_control o' = out_control o /\
     counters (out_state o') = counters (out_state o) /\
     swarms (out_state o') = m).

(** The announce message [swarm::announce] is handed: the receive buffer
    after the [ip] assignment. *)
Definition announce_hdr (from : sockaddr_in) (wire : list byte) (t : tracker)
  : list byte :=
  announce_ip (allow_alternate_ip t) from (recv_into (buffer t) wire).

End Tracker.

(* ===================================================================== *)
(** * Reference instances *)
(* ===================================================================== *)

(** Modelled from the spec: the [swarm] class of [swarm.hpp], which is
    not part of [main.cpp] (sections 3 and 4.3, Peer set): entries keyed
    by endpoint, upsert with role and completion, removal on [stopped],
    a sample of other peers from a rotating cursor, bounded storage with
    the oldest entry evicted.  [default_num_want] and [max_sample] are the
    spec's DEFAULT_NUM_WANT and MAX_SAMPLE. *)
Module SpecSwarm.

Record peer_entry := {
  endpoint : list byte;
  peer_id : list byte;
  last_seen : Z;
  seeder : bool;
  complete : bool
}.

Record t := { peers : list peer_entry; completed : Z; cursor : nat }.

Definition empty : t := {| peers := []; completed := 0; cursor := 0 |}.

Definition MAX_PEERS : nat := Z.to_nat 8192.

Definition seeders (s : t) : Z :=
  Z.of_nat (length (List.filter seeder (peers s))).

Definition leechers (s : t) : Z :=
  Z.of_nat (length (List.filter (fun p => negb (seeder p)) (peers s))).

Definition same_endpoint (e : list byte) (p : peer_entry) : bool :=
  bool_decide (endpoint p = e).

Definition upsert (e pid : list byte) (now : Z) (is_seed done : bool) (s : t) : t :=
  match List.find (same_endpoint e) (peers s) with
  | Some old =>
      let entry := {| endpoint := e; peer_id := pid; last_seen := now;
                      seeder := is_seed; complete := complete old || done |} in
      {| peers := map (fun p => if same_endpoint e p then entry else p) (peers s);
         completed := if done && negb (complete old)
                      then completed s + 1 else completed s;
         cursor := cursor s |}
  | None =>
      let entry := {| endpoint := e; peer_id := pid; last_seen := now;
                      seeder := is_seed; complete := done |} in
      let kept := if (length (peers s) <? MAX_PEERS)%nat
                  then peers s else tl (peers s) in
      {| peers := kept ++ [entry];
         completed := if done then completed s + 1 else completed s;
         cursor := cursor s |}
  end.

Definition remove (e : list byte) (s : t) : t :=
  {| peers := List.filter (fun p => negb (same_endpoint e p)) (peers s);
     completed := completed s; cursor := cursor s |}.

Definition sample (e : list byte) (k : nat) (s : t) : list peer_entry :=
  let others := List.filter (fun p => negb (same_endpoint e p)) (peers s) in
  let start := match others with
               | [] => 0%nat
               | _ => (cursor s mod length others)%nat
               end in
  firstn k (skipn start others ++ firstn start others).

Definition announce (default_num_want max_sample : nat)
    (s : t) (hdr : list byte) (now : Z) : t * (list byte * Z * Z) :=
  let e := field 84 4 hdr ++ field 96 2 hdr in
  let left := be_decode (field 64 8 hdr) in
  let event := be_decode (field 80 4 hdr) in
  let num_want := wrap_int (be_decode (field 92 4 hdr)) in
  let s1 := upsert e (field 36 20 hdr) now (left =? 0) (event =? 1) s in
  let s2 := if event =? 3 then remove e s1 else s1 in
  let k := Nat.min (if 0 <=? num_want then Z.to_nat num_want
                    else default_num_want) max_sample in
  let out := sample e k s2 in
  ({| peers := peers s2; completed := completed s2;
      cursor := (cursor s2 + length out)%nat |},
   (concat (map endpoint out), leechers s2, seeders s2)).

Definition scrape (s : t) : Z * Z * Z := (seeders s, completed s, leechers s).

End SpecSwarm.

Definition spec_swarm (default_num_want max_sample : nat) : SwarmImpl :=
  {| swarm := SpecSwarm.t;
     swarm_new := SpecSwarm.empty;
     swarm_announce := SpecSwarm.announce default_num_want max_sample;
     swarm_scrape := SpecSwarm.scrape |}.

(** Modelled from the spec: the value of [max_scrape_responses], a
    constant of [messages.hpp], is the 74 of section 4.5.  The host is
    little-endian and the C library's [RAND_MAX] is [INT_MAX] (glibc). *)
Definition linux_x86_64 : Platform :=
  {| host_big_endian := false; RAND_MAX := 2147483647;
     max_scrape_responses := 74 |}.

(** Modelled from the spec: [max_scrape_responses] as above, on a
    big-endian host whose C library has the smallest [RAND_MAX] the C
    standard allows. *)
Definition big_endian_host : Platform :=
  {| host_big_endian := true; RAND_MAX := 32767;
     max_scrape_responses := 74 |}.

(* ===================================================================== *)
(** * A concrete run *)
(* ===================================================================== *)

Module Sample.

(** The secret of [main]: SHA-1 initialised and fed the 8 bytes of a
    64-bit key. *)
Definition startup_secret : Sha1.ctx :=
  Sha1.update Sha1.SHA1_Init [x01; x23; x45; x67; x89; xab; xcd; xef].

(** 192.0.2.1 port 6881, as the objects sit in memory on a little-endian
    host. *)
Definition client : sockaddr_in :=
  {| sin_addr := 0x010200C0; sin_port := 0xE11A |}.

Definition swarm_impl : SwarmImpl := spec_swarm 50 100.

(** A freshly started tracker. *)
Definition fresh : @tracker sha1_openssl swarm_impl :=
  @Build_tracker sha1_openssl swarm_impl startup_secret false ∅
    {| connects := 0; announces := 0; scrapes := 0;
       errors := 0; bytes_out := 0; bytes_in := 0 |}
    (repeat x00 buffer_size).

(** An oracle: the send results, the value of [rand()], and 7, 8, 9 in
    every uninitialised scrape entry. *)
Definition oracle (os : list syscall_result) (r : Z) : env :=
  {| send_results := os; rand_value := r; time_now := 1000;
     uninit_data := fun _ => {| seeds := 7; download_count := 8;
                                downloaders := 9 |} |}.

Definition step (e : env) (from : sockaddr_in) (wire : list byte)
    (t : @tracker sha1_openssl swarm_impl) : @outcome sha1_openssl swarm_impl :=
  @tracker_iteration linux_x86_64 sha1_openssl swarm_impl e (Received from wire) t.

(** The connection-id the tracker issues to [client]. *)
Definition token : list byte :=
  @store linux_x86_64 8
    (@generate_connection_id linux_x86_64 sha1_openssl startup_secret client).

Definition connect_request : list byte :=
  be_encode 8 connect_magic ++ be_encode 4 0 ++ be_encode 4 0xdeadbeef.

Definition H1 : list byte := repeat x00 19 ++ [x01].
Definition H2 : list byte := repeat x00 19 ++ [x02].

(** A 98-byte announce for [H1] with the given connection-id, [left],
    [event] and [ip]; [num_want] is -1 and [port] 6881. *)
Definition announce_request (cid : list byte) (left event ip : Z) : list byte :=
  cid ++ be_encode 4 1 ++ be_encode 4 0x11223344 ++ H1 ++ repeat x41 20 ++
  be_encode 8 0 ++ be_encode 8 left ++ be_encode 8 0 ++ be_encode 4 event ++
  be_encode 4 ip ++ be_encode 4 0 ++ be_encode 4 (-1) ++ be_encode 2 6881.

(** A scrape for the given hashes, followed by [tail]. *)
Definition scrape_request (cid : list byte) (hashes : list (list byte))
    (tail : list byte) : list byte :=
  cid ++ be_encode 4 2 ++ be_encode 4 0x55 ++ concat hashes ++ tail.

(** The tracker after the client has announced [H1] as a leecher and then
    as a seeder that completed (scenarios D and E of the spec). *)
Definition seeded : @tracker sha1_openssl swarm_impl := Eval vm_compute in
  out_state
    (step (oracle [Returned 20] 0) client (announce_request token 0 1 0)
       (out_state
          (step (oracle [Returned 20] 0) client
             (announce_request token 100 2 0) fresh))).

End Sample.

(* ===================================================================== *)
(** * [main]: the secret, the stats line and the purge sweep *)
(* ===================================================================== *)

Definition wrap_u64 (z : Z) : Z := z mod 2 ^ 64.

(** [secret_key <<= 8; secret_key ^= rand();] on a [uint64_t], the [int]
    that [rand()] returns being converted to [uint64_t]. *)
Definition secret_key_step (key r : Z) : Z :=
  Z.lxor (wrap_u64 (Z.shiftl key 8)) (wrap_u64 r).

(** The loop [for (int i = 0; i < sizeof(secret_key); ++i)] of [main],
    [rand i] being what the [i]-th call of [rand()] returns. *)
Definition gen_secret_key (rand : nat -> Z) : Z :=
  fold_left secret_key_step (map rand (seq 0 8)) 0.

(** [SHA1_Init(&secret); SHA1_Update(&secret, &secret_key,
    sizeof(secret_key));], the context [SHA1_Init] leaves being a
    parameter. *)
Definition init_secret {plat : Platform} {ssl : OpenSSL}
    (SHA1_Init : SHA_CTX) (rand : nat -> Z) : SHA_CTX :=
  SHA1_Update SHA1_Init (store 8 (gen_secret_key rand)).

(** [__sync_fetch_and_sub(&counter, v)] on a [uint32_t]. *)
Definition sync_fetch_and_sub (c : counter) (v : Z) (s : stats) : stats :=
  sync_fetch_and_add c (- v) s.

(** The six [__sync_fetch_and_sub] calls of the controller loop, [last]
    holding the values read into [last_connects] ... [last_bytes_out]. *)
Definition reset_stats (last s : stats) : stats :=
  let s := sync_fetch_and_sub Connects (connects last) s in
  let s := sync_fetch_and_sub Announces (announces last) s in
  let s := sync_fetch_and_sub Scrapes (scrapes last) s in
  let s := sync_fetch_and_sub Errors (errors last) s in
  let s := sync_fetch_and_sub BytesIn (bytes_in last) s in
  sync_fetch_and_sub BytesOut (bytes_out last) s.

(** What the workers do to the counters between the reads and the
    subtractions of the controller: a sequence of fetch-and-adds. *)
Definition worker_adds (adds : list (counter * Z)) (s : stats) : stats :=
  fold_left (fun s (cv : counter * Z) => sync_fetch_and_add (fst cv) (snd cv) s)
            adds s.

#[export] Instance counter_eq_dec : EqDecision counter.
Proof. solve_decision. Defined.

(** The total added to one counter. *)
Fixpoint added_to (c : counter) (adds : list (counter * Z)) : Z :=
  match adds with
  | [] => 0
  | cv :: adds' =>
      (if bool_decide (fst cv = c) then snd cv else 0) + added_to c adds'
  end.

Definition counter_value (c : counter) (s : stats) : Z :=
  match c with
  | Connects => connects s
  | Announces => announces s
  | Scrapes => scrapes s
  | Errors => errors s
  | BytesOut => bytes_out s
  | BytesIn => bytes_in s
  end.

Section PurgeSweep.
Context {sw : SwarmImpl}.

(** [swarm::purge_stale(now)] of [swarm.hpp] is a parameter.  The hash
    table is seen through [order], the sequence of its keys as its
    iterators run through it from [begin()] to [end()]; the iterator
    [next_to_purge] is a position in [order], [length order] being
    [end()]. *)
Variable purge_stale : swarm -> Z -> swarm.

(** [swarm* s = next_to_purge->second; s->purge_stale(now);] *)
Definition purge_at (now : Z) (order : list (list byte)) (next : nat)
    (m : gmap (list byte) swarm) : gmap (list byte) swarm :=
  match order !! next with
  | Some k => alter (fun s => purge_stale s now) k m
  | None => m
  end.

(** [for (int i = 0; i < num_to_purge; ++i)]: step the iterator (or wrap
    it when it is at the end), stop at the end, purge otherwise. *)
Fixpoint purge_loop (now : Z) (order : list (list byte)) (n next : nat)
    (m : gmap (list byte) swarm) : nat * gmap (list byte) swarm :=
  match n with
  | O => (next, m)
  | S n' =>
      let next := if (next =? length order)%nat then 0%nat else S next in
      if (next =? length order)%nat then (next, m)
      else purge_loop now order n' next (purge_at now order next m)
  end.

(** [(std::min)(int(swarms.size()), 20)]. *)
Definition num_to_purge (order : list (list byte)) : Z :=
  Z.min (wrap_int (Z.of_nat (length order))) 20.

(** The sweep of one turn of the controller loop. *)
Definition purge_tick (now : Z) (order : list (list byte)) (next : nat)
    (m : gmap (list byte) swarm) : nat * gmap (list byte) swarm :=
  let next := if (next =? length order)%nat && (0 <? length order)%nat
              then 0%nat else next in
  purge_loop now order (Z.to_nat (num_to_purge order)) next m.

(** Successive turns of the controller loop at times [nows], the table
    keeping its keys and their order in between. *)
Fixpoint purge_ticks (nows : list Z) (order : list (list byte)) (next : nat)
    (m : gmap (list byte) swarm) : nat * gmap (list byte) swarm :=
  match nows with
  | [] => (next, m)
  | now :: nows' =>
      let '(next', m') := purge_tick now order next m in
      purge_ticks nows' order next' m'
  end.

End PurgeSweep.

(** The datagrams a trace got out, counted as [respond] and the announce
    path count them into [bytes_out]: the values the send calls returned. *)
Definition returned_bytes (tr : list send_event) : Z :=
  fold_right (fun (ev : send_event) acc =>
                match snd ev with Returned n => n + acc | _ => acc end) 0 tr.

(** Modelled from the spec: [swarm::purge_stale] of [swarm.hpp] (section
    4.3): every entry with [now - last_seen > timeout] is removed. *)
Definition spec_purge_stale (timeout : Z) (s : SpecSwarm.t) (now : Z) : SpecSwarm.t :=
  {| SpecSwarm.peers :=
       List.filter (fun p => negb (timeout <? now - SpecSwarm.last_seen p))
                   (SpecSwarm.peers s);
     SpecSwarm.completed := SpecSwarm.completed s;
     SpecSwarm.cursor := SpecSwarm.cursor s |}.

(** Values for concrete runs of [main]'s code. *)
Module SampleMain.

(** [rand()] returning [INT_MAX], [INT_MAX - 1], ... *)
Definition rand_full (i : nat) : Z := 2147483647 - Z.of_nat i.

(** The same sequence with the bits above [8 * (i + 1)] cleared. *)
Definition rand_low (i : nat) : Z := rand_full i mod 2 ^ (8 * (Z.of_nat i + 1)).

(** [rand()] returning 0xef, 0xcd, ..., 0x01: the key whose bytes in a
    little-endian memory are 01 23 45 67 89 ab cd ef. *)
Definition rand_bytes (i : nat) : Z :=
  nth i [0xef; 0xcd; 0xab; 0x89; 0x67; 0x45; 0x23; 0x01] 0.

(** A swarm with one peer last seen at time 1000. *)
Definition stale : SpecSwarm.t :=
  {| SpecSwarm.peers :=
       [{| SpecSwarm.endpoint := [xc0; x00; x02; x01; x1a; xe1];
           SpecSwarm.peer_id := repeat x41 20;
           SpecSwarm.last_seen := 1000;
           SpecSwarm.seeder := false;
           SpecSwarm.complete := false |}];
     SpecSwarm.completed := 0;
     SpecSwarm.cursor := 0 |}.

(** A table of two such swarms, iterated [H1] first. *)
Definition order : list (list byte) := [Sample.H1; Sample.H2].

Definition table : gmap (list byte) (@swarm Sample.swarm_impl) :=
  <[Sample.H1 := stale]> (<[Sample.H2 := stale]> ∅).

(** The sweep with a peer timeout of 45 minutes. *)
Definition sweep (nows : list Z) (next : nat) :=
  @purge_ticks Sample.swarm_impl (spec_purge_stale 2700) nows order next table.

End SampleMain.

(* ===================================================================== *)
(** * Bytes and machine integers: properties *)
(* ===================================================================== *)

Lemma Z_of_byte_range (b : byte) : 0 <= Z_of_byte b < 256.
Proof.
  unfold Z_of_byte. pose proof (Byte.to_N_bounded b) as Hb. lia.
Qed.

Lemma byte_of_Z_of_byte (b : byte) (k : Z) : byte_of_Z (Z_of_byte b + 256 * k) = b.
Proof.
  unfold byte_of_Z.
  replace ((Z_of_byte b + 256 * k) mod 256) with (Z_of_byte b).
  - unfold Z_of_byte. rewrite N2Z.id, Byte.of_to_N. reflexivity.
  - pose proof (Z_of_byte_range b).
    replace (Z_of_byte b + 256 * k) with (Z_of_byte b + k * 256) by lia.
    rewrite Z.mod_add by lia.
    symmetry. apply Z.mod_small. lia.
Qed.

Lemma Z_of_byte_of_Z (z : Z) : Z_of_byte (byte_of_Z z) = z mod 256.
Proof.
  unfold byte_of_Z, Z_of_byte.
  pose proof (Z.mod_pos_bound z 256 ltac:(lia)) as Hr.
  destruct (Byte.of_N (Z.to_N (z mod 256))) as [b|] eqn:E.
  - apply Byte.to_of_N in E. rewrite E. lia.
  - apply Byte.of_N_None_iff in E. lia.
Qed.

Lemma le_encode_length (n : nat) (z : Z) : length (le_encode n z) = n.
Proof. revert z. induction n as [|n IH]; intros z; simpl; [reflexivity|]. now rewrite IH. Qed.

Lemma be_encode_length (n : nat) (z : Z) : length (be_encode n z) = n.
Proof. unfold be_encode. now rewrite length_rev, le_encode_length. Qed.

Lemma le_encode_decode (bs : list byte) : le_encode (length bs) (le_decode bs) = bs.
Proof.
  induction bs as [|b bs IH]; simpl; [reflexivity|].
  rewrite byte_of_Z_of_byte. f_equal.
  replace ((Z_of_byte b + 256 * le_decode bs) / 256) with (le_decode bs); [exact IH|].
  pose proof (Z_of_byte_range b).
  replace (Z_of_byte b + 256 * le_decode bs)
    with (Z_of_byte b + le_decode bs * 256) by lia.
  rewrite Z.div_add by lia.
  rewrite (Z.div_small (Z_of_byte b)) by lia. lia.
Qed.

Lemma le_decode_encode (n : nat) (z : Z) :
  le_decode (le_encode n z) = z mod 256 ^ Z.of_nat n.
Proof.
  revert z. induction n as [|n IH]; intros z.
  - simpl. now rewrite Z.mod_1_r.
  - cbn [le_encode le_decode]. rewrite IH, Z_of_byte_of_Z.
    rewrite Nat2Z.inj_succ, Z.pow_succ_r by lia.
    rewrite (Z.rem_mul_r z 256 (256 ^ Z.of_nat n)) by lia. lia.
Qed.

Lemma le_encode_mod (n : nat) (z : Z) :
  le_encode n (z mod 256 ^ Z.of_nat n) = le_encode n z.
Proof.
  rewrite <- le_decode_encode.
  rewrite <- (le_encode_length n z) at 1. apply le_encode_decode.
Qed.

Lemma be_encode_decode (bs : list byte) : be_encode (length bs) (be_decode bs) = bs.
Proof.
  unfold be_encode, be_decode.
  rewrite <- (length_rev bs), le_encode_decode. apply rev_involutive.
Qed.

Lemma field_length (off n : nat) (buf : list byte) :
  (off + n <= length buf)%nat -> length (field off n buf) = n.
Proof. intros H. unfold field. rewrite length_firstn, length_skipn. lia. Qed.

Lemma field_app_l (off n : nat) (a b : list byte) :
  (off + n <= length a)%nat -> field off n (a ++ b) = field off n a.
Proof.
  intros H. unfold field.
  rewrite skipn_app, firstn_app, length_skipn.
  replace (n - (length a - off))%nat with 0%nat by lia.
  rewrite firstn_O. apply app_nil_r.
Qed.

Lemma field_firstn (off n k : nat) (a : list byte) :
  (off + n <= k)%nat -> field off n (firstn k a) = field off n a.
Proof.
  intros H. unfold field.
  rewrite skipn_firstn_comm, firstn_firstn. f_equal. lia.
Qed.

Lemma write_at_length (off : nat) (bs buf : list byte) :
  (off + length bs <= length buf)%nat ->
  length (write_at off bs buf) = length buf.
Proof.
  intros H. unfold write_at.
  rewrite !length_app, length_firstn, length_skipn. lia.
Qed.

Lemma field_write_at_before (off n woff : nat) (bs buf : list byte) :
  (off + n <= woff)%nat -> (woff <= length buf)%nat ->
  field off n (write_at woff bs buf) = field off n buf.
Proof.
  intros H Hb. unfold write_at.
  rewrite field_app_l by (rewrite length_firstn; lia).
  now apply field_firstn.
Qed.

Lemma field_write_at_after (off n woff : nat) (bs buf : list byte) :
  (woff + length bs <= off)%nat -> (woff + length bs <= length buf)%nat ->
  field off n (write_at woff bs buf) = field off n buf.
Proof.
  intros H Hb. unfold write_at, field. f_equal.
  rewrite !skipn_app, length_firstn.
  rewrite (skipn_all2 (firstn woff buf)) by (rewrite length_firstn; lia).
  rewrite (skipn_all2 bs) by lia.
  rewrite skipn_skipn. simpl. f_equal. lia.
Qed.

Lemma field_write_at_same (woff : nat) (bs buf : list byte) :
  (woff <= length buf)%nat ->
  field woff (length bs) (write_at woff bs buf) = bs.
Proof.
  intros Hb. unfold write_at, field.
  rewrite skipn_app, length_firstn.
  rewrite (skipn_all2 (firstn woff buf)) by (rewrite length_firstn; lia).
  replace (woff - Nat.min woff (length buf))%nat with 0%nat by lia.
  rewrite skipn_O. cbn [app]. rewrite firstn_app, Nat.sub_diag.
  rewrite firstn_all, firstn_O. apply app_nil_r.
Qed.

Lemma recv_into_length (buf wire : list byte) :
  recv_size wire <= Z.of_nat (length (recv_into buf wire)).
Proof. unfold recv_size, recv_into. rewrite length_app. lia. Qed.

Lemma field_app_r (off n : nat) (a b : list byte) :
  field (length a + off) n (a ++ b) = field off n b.
Proof.
  unfold field. f_equal.
  rewrite skipn_app, skipn_all2 by lia.
  replace (length a + off - length a)%nat with off by lia. reflexivity.
Qed.

Lemma field_prefix (a b : list byte) : field 0 (length a) (a ++ b) = a.
Proof.
  unfold field. rewrite skipn_O, firstn_app, Nat.sub_diag, firstn_all, firstn_O.
  apply app_nil_r.
Qed.

Section HostMemoryFacts.
Context {plat : Platform}.

Lemma store_length (n : nat) (z : Z) : length (store n z) = n.
Proof.
  unfold store. destruct host_big_endian;
    [apply be_encode_length | apply le_encode_length].
Qed.

(** Writing back what was read from memory gives the same bytes. *)
Lemma store_load (bs : list byte) : store (length bs) (load bs) = bs.
Proof.
  unfold store, load. destruct host_big_endian;
    [apply be_encode_decode | apply le_encode_decode].
Qed.

Lemma load_store (n : nat) (z : Z) : load (store n z) = z mod 256 ^ Z.of_nat n.
Proof.
  unfold store, load, be_decode, be_encode. destruct host_big_endian.
  - rewrite rev_involutive. apply le_decode_encode.
  - apply le_decode_encode.
Qed.

(** [htonl] puts the value in memory most significant byte first. *)
Lemma store_htonl (x : Z) : store 4 (htonl x) = be_encode 4 x.
Proof.
  unfold store, htonl, bswap, wrap_u32. destruct host_big_endian.
  - unfold be_encode. f_equal. apply (le_encode_mod 4).
  - unfold be_decode, be_encode.
    assert (length (rev (le_encode 4 x)) = 4%nat) as H
      by now rewrite length_rev, le_encode_length.
    rewrite <- H at 1. apply le_encode_decode.
Qed.

(** [ntohl] of a 32-bit object is the big-endian reading of its bytes. *)
Lemma ntohl_load (bs : list byte) : length bs = 4%nat -> ntohl (load bs) = be_decode bs.
Proof.
  intros H. unfold ntohl, htonl, load, bswap, wrap_u32. destruct host_big_endian.
  - unfold be_decode. rewrite <- (le_decode_encode 4).
    rewrite <- (length_rev bs) in H. rewrite <- H, le_encode_decode. reflexivity.
  - rewrite <- H, le_encode_decode. reflexivity.
Qed.

Lemma be64toh_load (bs : list byte) : length bs = 8%nat -> be64toh (load bs) = be_decode bs.
Proof.
  intros H. unfold be64toh, load, bswap. destruct host_big_endian.
  - unfold be_decode. change (2 ^ 64) with (256 ^ Z.of_nat 8).
    rewrite <- (le_decode_encode 8).
    rewrite <- (length_rev bs) in H. rewrite <- H, le_encode_decode. reflexivity.
  - rewrite <- H, le_encode_decode. reflexivity.
Qed.

(** A 32-bit object is zero exactly when its four bytes are. *)
Lemma load_zero_iff (bs : list byte) :
  length bs = 4%nat -> (load bs = 0 <-> bs = [x00; x00; x00; x00]).
Proof.
  intros H. split.
  - intros Hz. rewrite <- (store_load bs), Hz, H.
    unfold store, be_encode. destruct host_big_endian; reflexivity.
  - intros ->. unfold load, be_decode. destruct host_big_endian; reflexivity.
Qed.

End HostMemoryFacts.

(* ===================================================================== *)
(** * The reference SHA-1 meets the contract *)
(* ===================================================================== *)

Lemma sha1_final_length (c : Sha1.ctx) : length (Sha1.final c) = SHA_DIGEST_LENGTH.
Proof.
  unfold Sha1.final, Sha1.digest_bytes.
  repeat rewrite length_app. repeat rewrite be_encode_length. reflexivity.
Qed.

Lemma sha1_update_app (c : Sha1.ctx) (a b : list byte) :
  Sha1.update (Sha1.update c a) b = Sha1.update c (a ++ b).
Proof. unfold Sha1.update. now rewrite fold_left_app. Qed.

Lemma sha1_openssl_contract : @SHA1_contract sha1_openssl.
Proof. split; [exact sha1_final_length | exact sha1_update_app]. Qed.

Example sha1_abc :
  Sha1.final (Sha1.update Sha1.SHA1_Init [x61; x62; x63]) =
  [xa9; x99; x3e; x36; x47; x06; x81; x6a; xba; x3e;
   x25; x71; x78; x50; xc2; x6c; x9c; xd0; xd8; x9d].
Proof. vm_compute. reflexivity. Qed.

Example sha1_two_blocks :
  Sha1.final (Sha1.update Sha1.SHA1_Init
    (map byte_of_Z
       [97;98;99;100;98;99;100;101;99;100;101;102;100;101;102;103;
        101;102;103;104;102;103;104;105;103;104;105;106;104;105;106;107;
        105;106;107;108;106;107;108;109;107;108;109;110;108;109;110;111;
        109;110;111;112;110;111;112;113])) =
  [x84; x98; x3e; x44; x1c; x3b; xd2; x6e; xba; xae;
   x4a; xa1; xf9; x51; x29; xe5; xe5; x46; x70; xf1].
Proof. vm_compute. reflexivity. Qed.

(* ===================================================================== *)
(** * The connection-id *)
(* ===================================================================== *)

Section ConnectionId.
Context {plat : Platform} {ssl : OpenSSL}.

Lemma gen_secret_digest_length (Hssl : SHA1_contract) sec from :
  length (gen_secret_digest sec from) = SHA_DIGEST_LENGTH.
Proof. unfold gen_secret_digest. apply Hssl. Qed.

Lemma verify_connection_id_spec sec token from :
  verify_connection_id sec token from = true <->
  store 8 token = firstn 8 (gen_secret_digest sec from).
Proof. unfold verify_connection_id. apply bool_decide_eq_true. Qed.

Lemma generate_connection_id_bytes (Hssl : SHA1_contract) sec from :
  store 8 (generate_connection_id sec from) = firstn 8 (gen_secret_digest sec from).
Proof.
  unfold generate_connection_id.
  set (d := firstn 8 (gen_secret_digest sec from)).
  assert (length d = 8%nat) as Hd.
  { unfold d. rewrite length_firstn, gen_secret_digest_length by assumption.
    reflexivity. }
  rewrite <- Hd at 1. apply store_load.
Qed.

(** C1. For every client endpoint, the token issued for it verifies
    against it: [verify_connection_id (generate_connection_id from) from]
    holds.  The digest behind both is SHA-1 over the secret state followed
    by the 4 address bytes and the 2 port bytes; the token is the first 8
    digest bytes, and verification compares the token's 8 bytes with those
    same digest bytes. *)
Theorem verify_generated_connection_id
    (Hssl : SHA1_contract) (sec : SHA_CTX) (from : sockaddr_in) :
  verify_connection_id sec (generate_connection_id sec from) from = true /\
  gen_secret_digest sec from =
    SHA1_Final (SHA1_Update sec (store 4 (sin_addr from) ++ store 2 (sin_port from))) /\
  length (store 4 (sin_addr from)) = 4%nat /\
  length (store 2 (sin_port from)) = 2%nat /\
  store 8 (generate_connection_id sec from) = firstn 8 (gen_secret_digest sec from) /\
  length (firstn 8 (gen_secret_digest sec from)) = 8%nat /\
  (forall token,
     verify_connection_id sec token from = true <->
     store 8 token = firstn 8 (gen_secret_digest sec from)).
Proof.
  pose proof (generate_connection_id_bytes Hssl sec from) as Hgen.
  repeat split.
  - now apply verify_connection_id_spec.
  - unfold gen_secret_digest. destruct Hssl as [_ Happ]. now rewrite Happ.
  - apply store_length.
  - apply store_length.
  - exact Hgen.
  - rewrite length_firstn, gen_secret_digest_length by assumption. reflexivity.
  - apply verify_connection_id_spec.
  - apply verify_connection_id_spec.
Qed.

End ConnectionId.

Lemma verify_generated_connection_id_witness :
  @SHA1_contract sha1_openssl /\
  @verify_connection_id linux_x86_64 sha1_openssl Sample.startup_secret
    (@generate_connection_id linux_x86_64 sha1_openssl Sample.startup_secret Sample.client)
    Sample.client = true.
Proof.
  split; [exact sha1_openssl_contract|].
  exact (proj1 (@verify_generated_connection_id linux_x86_64 sha1_openssl
                  sha1_openssl_contract Sample.startup_secret Sample.client)).
Defined.

(* ===================================================================== *)
(** * Receiving a datagram *)
(* ===================================================================== *)

Lemma recv_size_spec (wire : list byte) :
  recv_size wire = Z.min 1496 (Z.of_nat (length wire)).
Proof. unfold recv_size, buffer_size. rewrite length_firstn. lia. Qed.

Lemma recv_size_nonneg (wire : list byte) : 0 <= recv_size wire <= 1496.
Proof. rewrite recv_size_spec. lia. Qed.

Lemma field_recv_into (off n : nat) (buf wire : list byte) :
  Z.of_nat (off + n) <= recv_size wire ->
  field off n (recv_into buf wire) = field off n wire.
Proof.
  intros H. unfold recv_into. unfold recv_size in H.
  rewrite field_app_l by lia.
  apply field_firstn.
  rewrite length_firstn in H. lia.
Qed.

Lemma field_length_wire (off n : nat) (wire : list byte) :
  Z.of_nat (off + n) <= recv_size wire -> length (field off n wire) = n.
Proof.
  intros H. apply field_length. rewrite recv_size_spec in H. lia.
Qed.

Section Worker.
Context {plat : Platform} {ssl : OpenSSL} {sw : SwarmImpl}.

Implicit Types (t : tracker) (e : env) (from : sockaddr_in) (wire : list byte).

Lemma action_after_recv wire t :
  16 <= recv_size wire ->
  ntohl (hdr_action (buffer (after_recv wire t))) = be_decode (field 8 4 wire).
Proof.
  intros H. cbn [after_recv count with_counters with_buffer buffer].
  unfold hdr_action. rewrite field_recv_into by (simpl; lia).
  apply ntohl_load, field_length_wire. simpl; lia.
Qed.

Lemma connection_id_after_recv wire t :
  16 <= recv_size wire ->
  hdr_connection_id (buffer (after_recv wire t)) = hdr_connection_id wire.
Proof.
  intros H. cbn [after_recv count with_counters with_buffer buffer].
  unfold hdr_connection_id. now rewrite field_recv_into by (simpl; lia).
Qed.

Lemma transaction_id_after_recv wire t :
  16 <= recv_size wire ->
  store 4 (hdr_transaction_id (buffer (after_recv wire t))) = field 12 4 wire.
Proof.
  intros H. cbn [after_recv count with_counters with_buffer buffer].
  unfold hdr_transaction_id. rewrite field_recv_into by (simpl; lia).
  assert (length (field 12 4 wire) = 4%nat) as Hl
    by (apply field_length_wire; simpl; lia).
  rewrite <- Hl at 1. apply store_load.
Qed.

Lemma be64toh_connection_id wire :
  16 <= recv_size wire ->
  be64toh (hdr_connection_id wire) = be_decode (field 0 8 wire).
Proof.
  intros H. unfold hdr_connection_id.
  apply be64toh_load, field_length_wire. simpl; lia.
Qed.

(** The three ways out of the [switch] for a datagram with a header. *)
Lemma iteration_dispatch e from wire t :
  16 <= recv_size wire ->
  tracker_iteration e (Received from wire) t =
  dispatch e from (recv_size wire) (after_recv wire t).
Proof.
  intros H. unfold tracker_iteration.
  destruct (recv_size wire <? 16) eqn:E; [apply Z.ltb_lt in E; lia | reflexivity].
Qed.

Lemma iteration_connect e from wire t :
  16 <= recv_size wire ->
  be_decode (field 8 4 wire) = action_connect ->
  tracker_iteration e (Received from wire) t =
  handle_connect e from (after_recv wire t).
Proof.
  intros H Ha. rewrite iteration_dispatch by assumption.
  unfold dispatch. rewrite action_after_recv, Ha by assumption. reflexivity.
Qed.

Lemma iteration_announce e from wire t :
  16 <= recv_size wire ->
  be_decode (field 8 4 wire) = action_announce ->
  tracker_iteration e (Received from wire) t =
  handle_announce e from (recv_size wire) (after_recv wire t).
Proof.
  intros H Ha. rewrite iteration_dispatch by assumption.
  unfold dispatch. rewrite action_after_recv, Ha by assumption. reflexivity.
Qed.

Lemma iteration_scrape e from wire t :
  16 <= recv_size wire ->
  be_decode (field 8 4 wire) = action_scrape ->
  tracker_iteration e (Received from wire) t =
  handle_scrape e from (recv_size wire) (after_recv wire t).
Proof.
  intros H Ha. rewrite iteration_dispatch by assumption.
  unfold dispatch. rewrite action_after_recv, Ha by assumption. reflexivity.
Qed.

(* ===================================================================== *)
(** * [respond] *)
(* ===================================================================== *)

Lemma respond_packets os pkt s :
  Forall (fun ev : send_event => fst ev = pkt) (respond os pkt s).1.2.
Proof.
  induction os as [|r os IH]; simpl; [constructor|].
  destruct r as [n| |err]; simpl.
  - repeat constructor.
  - destruct (respond os pkt s) as [[s' tr] res]. simpl in *.
    constructor; [reflexivity | exact IH].
  - repeat constructor.
Qed.

(** Interrupted [k] times, then accepted: [k + 1] calls with the same
    packet, the last one counted in [bytes_out], and [respond] returns 0. *)
Lemma respond_retries_until_sent k n rest pkt s :
  respond (repeat Interrupted k ++ Returned n :: rest) pkt s =
  (sync_fetch_and_add BytesOut n s,
   repeat (pkt, Interrupted) k ++ [(pkt, Returned n)],
   Some false).
Proof.
  induction k as [|k IH]; simpl; [reflexivity|]. now rewrite IH.
Qed.

(** Interrupted [k] times, then another error: [respond] returns 1. *)
Lemma respond_retries_until_failed k err rest pkt s :
  respond (repeat Interrupted k ++ Failed err :: rest) pkt s =
  (s, repeat (pkt, Interrupted) k ++ [(pkt, Failed err)], Some true).
Proof.
  induction k as [|k IH]; simpl; [reflexivity|]. now rewrite IH.
Qed.

Lemma delivered_after_retries k n pkt :
  delivered (repeat (pkt, Interrupted) k ++ [(pkt, Returned n)]) = [pkt].
Proof.
  induction k as [|k IH]; simpl; [reflexivity|]. exact IH.
Qed.

Lemma delivered_failed k err pkt :
  delivered (repeat (pkt, Interrupted) k ++ [(pkt, Failed err)]) = [].
Proof.
  induction k as [|k IH]; simpl; [reflexivity|]. exact IH.
Qed.

(** [respond] only ever touches [bytes_out]. *)
Lemma respond_counters os pkt s :
  let s' := (respond os pkt s).1.1 in
  connects s' = connects s /\ announces s' = announces s /\
  scrapes s' = scrapes s /\ errors s' = errors s /\ bytes_in s' = bytes_in s.
Proof.
  induction os as [|r os IH]; simpl; [tauto|].
  destruct r as [n| |err]; simpl; [tauto| |tauto].
  destruct (respond os pkt s) as [[s' tr] res]. exact IH.
Qed.

Lemma respond_then_packets e pkt t :
  Forall (fun ev : send_event => fst ev = pkt) (out_trace (respond_then e pkt t)).
Proof.
  unfold respond_then. pose proof (respond_packets (send_results e) pkt (counters t)) as H.
  destruct (respond (send_results e) pkt (counters t)) as [[s' tr] res]. exact H.
Qed.

Lemma respond_then_state e pkt t :
  let o := respond_then e pkt t in
  swarms (out_state o) = swarms t /\ buffer (out_state o) = buffer t /\
  secret (out_state o) = secret t /\
  connects (counters (out_state o)) = connects (counters t) /\
  announces (counters (out_state o)) = announces (counters t) /\
  scrapes (counters (out_state o)) = scrapes (counters t) /\
  errors (counters (out_state o)) = errors (counters t) /\
  bytes_in (counters (out_state o)) = bytes_in (counters t).
Proof.
  unfold respond_then.
  pose proof (respond_counters (send_results e) pkt (counters t)) as H.
  destruct (respond (send_results e) pkt (counters t)) as [[s' tr] res].
  simpl in *. tauto.
Qed.

Lemma respond_then_sent e pkt t k n rest :
  send_results e = repeat Interrupted k ++ Returned n :: rest ->
  let o := respond_then e pkt t in
  out_trace o = repeat (pkt, Interrupted) k ++ [(pkt, Returned n)] /\
  delivered (out_trace o) = [pkt] /\
  out_control o = NextDatagram /\
  bytes_out (counters (out_state o)) = wrap_u32 (bytes_out (counters t) + n).
Proof.
  intros H. unfold respond_then. rewrite H, respond_retries_until_sent.
  cbn [out_trace out_control out_state]. rewrite delivered_after_retries.
  repeat split; reflexivity.
Qed.

Lemma respond_then_failed e pkt t k err rest :
  send_results e = repeat Interrupted k ++ Failed err :: rest ->
  let o := respond_then e pkt t in
  out_trace o = repeat (pkt, Interrupted) k ++ [(pkt, Failed err)] /\
  delivered (out_trace o) = [] /\
  out_control o = ThreadExit.
Proof.
  intros H. unfold respond_then. rewrite H, respond_retries_until_failed.
  cbn [out_trace out_control out_state]. rewrite delivered_failed.
  repeat split; reflexivity.
Qed.

(* ===================================================================== *)
(** * Connect *)
(* ===================================================================== *)

Lemma connect_response_packet wire t from :
  16 <= recv_size wire ->
  firstn 16 (connect_response_bytes
    {| cr_action := htonl action_connect;
       cr_transaction_id := hdr_transaction_id (buffer (after_recv wire t));
       cr_connection_id := generate_connection_id (secret t) from |}) =
  be_encode 4 action_connect ++ field 12 4 wire ++
  store 8 (generate_connection_id (secret t) from).
Proof.
  intros H. unfold connect_response_bytes. cbn [cr_action cr_transaction_id cr_connection_id].
  rewrite store_htonl, transaction_id_after_recv by assumption.
  apply firstn_all2.
  rewrite !length_app, be_encode_length, store_length, field_length_wire
    by (simpl; lia).
  simpl; lia.
Qed.

Lemma handle_connect_accepts e from wire t :
  16 <= recv_size wire ->
  be_decode (field 0 8 wire) = connect_magic ->
  handle_connect e from (after_recv wire t) =
  respond_then e
    {| pkt_to := from;
       pkt_data := be_encode 4 action_connect ++ field 12 4 wire ++
                   store 8 (generate_connection_id (secret t) from) |}
    (count Connects 1 (after_recv wire t)).
Proof.
  intros H Hm. unfold handle_connect.
  rewrite connection_id_after_recv, be64toh_connection_id, Hm by assumption.
  cbn [negb Z.eqb connect_magic Pos.eqb].
  change (secret (after_recv wire t)) with (secret t).
  now rewrite connect_response_packet by assumption.
Qed.

Lemma handle_connect_rejects e from wire t :
  16 <= recv_size wire ->
  be_decode (field 0 8 wire) <> connect_magic ->
  handle_connect e from (after_recv wire t) =
  finish (count Errors 1 (after_recv wire t)) NextDatagram.
Proof.
  intros H Hm. unfold handle_connect.
  rewrite connection_id_after_recv, be64toh_connection_id by assumption.
  destruct (be_decode (field 0 8 wire) =? connect_magic) eqn:E;
    [apply Z.eqb_eq in E; contradiction | reflexivity].
Qed.

(** C2. A connect datagram of at least 16 bytes whose connection_id is
    the magic value 0x41727101980 in network byte order is answered with
    exactly 16 bytes: action 0, the request's transaction_id bytes
    verbatim, and a connection_id [T] that verifies against the source
    endpoint.  Every send call of the iteration carries that packet to the
    source; when the send goes through (possibly after interruptions) that
    packet is what leaves the host.  [connects] is incremented by 1 (as a
    [uint32_t]). *)
Theorem connect_handshake (Hssl : SHA1_contract) e from wire t :
  16 <= recv_size wire ->
  be_decode (field 8 4 wire) = action_connect ->
  be_decode (field 0 8 wire) = connect_magic ->
  let o := tracker_iteration e (Received from wire) t in
  let T := generate_connection_id (secret t) from in
  let pkt := {| pkt_to := from;
                pkt_data := be_encode 4 0 ++ field 12 4 wire ++ store 8 T |} in
  length (pkt_data pkt) = 16%nat /\
  verify_connection_id (secret t) T from = true /\
  Forall (fun ev : send_event => fst ev = pkt) (out_trace o) /\
  (forall k n rest,
     send_results e = repeat Interrupted k ++ Returned n :: rest ->
     delivered (out_trace o) = [pkt] /\ out_control o = NextDatagram) /\
  connects (counters (out_state o)) = wrap_u32 (connects (counters t) + 1) /\
  (0 <= connects (counters t) < 2 ^ 32 - 1 ->
   connects (counters (out_state o)) = connects (counters t) + 1) /\
  errors (counters (out_state o)) = errors (counters t) /\
  swarms (out_state o) = swarms t.
Proof.
  intros H Ha Hm o T pkt.
  assert (o = respond_then e pkt (count Connects 1 (after_recv wire t))) as Ho.
  { unfold o. rewrite iteration_connect by assumption.
    now apply handle_connect_accepts. }
  pose proof (respond_then_state e pkt (count Connects 1 (after_recv wire t))) as Hst.
  cbv zeta in Hst. rewrite <- Ho in Hst.
  destruct Hst as (Hsw & _ & _ & Hc & _ & _ & Herr & _).
  assert (connects (counters (out_state o)) = wrap_u32 (connects (counters t) + 1))
    as Hconn by (rewrite Hc; reflexivity).
  repeat split.
  - unfold pkt. cbn [pkt_data].
    rewrite !length_app, be_encode_length, store_length, field_length_wire
      by (simpl; lia).
    reflexivity.
  - apply verify_connection_id_spec. now apply generate_connection_id_bytes.
  - rewrite Ho. apply respond_then_packets.
  - rewrite Ho. now apply (respond_then_sent e pkt _ k n rest).
  - rewrite Ho. now apply (respond_then_sent e pkt _ k n rest).
  - exact Hconn.
  - intros Hr. rewrite Hconn. unfold wrap_u32. apply Z.mod_small. lia.
  - rewrite Herr. reflexivity.
  - rewrite Hsw. reflexivity.
Qed.

(* ===================================================================== *)
(** * Datagrams that are dropped *)
(* ===================================================================== *)

Lemma handle_announce_rejects_token e from size wire t :
  16 <= recv_size wire ->
  verify_connection_id (secret t) (hdr_connection_id wire) from = false ->
  handle_announce e from size (after_recv wire t) =
  finish (count Errors 1 (after_recv wire t)) NextDatagram.
Proof.
  intros H Hv. unfold handle_announce.
  rewrite connection_id_after_recv by assumption.
  change (secret (after_recv wire t)) with (secret t).
  now rewrite Hv.
Qed.

Lemma handle_scrape_rejects_token e from size wire t :
  16 <= recv_size wire ->
  verify_connection_id (secret t) (hdr_connection_id wire) from = false ->
  handle_scrape e from size (after_recv wire t) =
  finish (count Errors 1 (after_recv wire t)) NextDatagram.
Proof.
  intros H Hv. unfold handle_scrape.
  rewrite connection_id_after_recv by assumption.
  change (secret (after_recv wire t)) with (secret t).
  now rewrite Hv.
Qed.

Lemma handle_announce_rejects_short e from wire t :
  16 <= recv_size wire < 98 ->
  verify_connection_id (secret t) (hdr_connection_id wire) from = true ->
  handle_announce e from (recv_size wire) (after_recv wire t) =
  finish (count Errors 1 (after_recv wire t)) NextDatagram.
Proof.
  intros H Hv. unfold handle_announce.
  rewrite connection_id_after_recv by lia.
  change (secret (after_recv wire t)) with (secret t).
  rewrite Hv. cbn [negb].
  destruct (recv_size wire <? 98) eqn:E; [reflexivity | apply Z.ltb_ge in E; lia].
Qed.

Lemma handle_scrape_rejects_short e from wire t :
  16 <= recv_size wire < 36 ->
  verify_connection_id (secret t) (hdr_connection_id wire) from = true ->
  handle_scrape e from (recv_size wire) (after_recv wire t) =
  finish (count Errors 1 (after_recv wire t)) NextDatagram.
Proof.
  intros H Hv. unfold handle_scrape.
  rewrite connection_id_after_recv by lia.
  change (secret (after_recv wire t)) with (secret t).
  rewrite Hv. cbn [negb].
  destruct (recv_size wire <? 16 + 20) eqn:E; [reflexivity | apply Z.ltb_ge in E; lia].
Qed.

Lemma dropped_and_counted_intro e from wire t :
  (forall m,
     tracker_iteration e (Received from wire) (with_swarms m t) =
     finish (count Errors 1 (after_recv wire (with_swarms m t))) NextDatagram) ->
  dropped_and_counted e from wire t.
Proof.
  intros Hm.
  assert (tracker_iteration e (Received from wire) t =
          finish (count Errors 1 (after_recv wire t)) NextDatagram) as Ho.
  { specialize (Hm (swarms t)). destruct t. exact Hm. }
  unfold dropped_and_counted. cbv zeta. rewrite Ho.
  cbn [finish out_trace out_control out_state].
  assert (forall m, counters (count Errors 1 (after_recv wire (with_swarms m t))) =
                    counters (count Errors 1 (after_recv wire t)) /\
                    swarms (count Errors 1 (after_recv wire (with_swarms m t))) = m)
    as Hframe.
  { intros m. unfold after_recv, count, with_counters, with_buffer, with_swarms.
    cbn [counters swarms buffer secret allow_alternate_ip]. split; reflexivity. }
  split; [reflexivity|]. split; [reflexivity|].
  split; [unfold after_recv, count, with_counters, with_buffer;
          cbn [counters errors sync_fetch_and_add]; reflexivity|].
  split.
  { intros Hr. unfold after_recv, count, with_counters, with_buffer.
    cbn [counters errors sync_fetch_and_add].
    unfold wrap_u32. apply Z.mod_small. lia. }
  split; [unfold after_recv, count, with_counters, with_buffer;
          cbn [swarms]; reflexivity|].
  intros m. rewrite Hm. cbn [finish out_trace out_control out_state].
  destruct (Hframe m) as [Hc Hs].
  split; [reflexivity|]. split; [reflexivity|]. split; assumption.
Qed.

(** C6. A connect datagram whose connection_id is not the magic value,
    and an announce or scrape datagram whose connection_id does not verify
    against the source endpoint, get no response; [errors] is incremented
    by 1 (as a [uint32_t]); the swarm table is left as it was, and the
    outcome is the same whatever the table holds. *)
Theorem authentication_failure_dropped e from wire t :
  16 <= recv_size wire ->
  (be_decode (field 8 4 wire) = action_connect /\
   be_decode (field 0 8 wire) <> connect_magic) \/
  ((be_decode (field 8 4 wire) = action_announce \/
    be_decode (field 8 4 wire) = action_scrape) /\
   verify_connection_id (secret t) (hdr_connection_id wire) from = false) ->
  let o := tracker_iteration e (Received from wire) t in
  out_trace o = [] /\
  out_control o = NextDatagram /\
  errors (counters (out_state o)) = wrap_u32 (errors (counters t) + 1) /\
  (0 <= errors (counters t) < 2 ^ 32 - 1 ->
   errors (counters (out_state o)) = errors (counters t) + 1) /\
  swarms (out_state o) = swarms t /\
  (forall m : gmap (list byte) swarm,
     let o' := tracker_iteration e (Received from wire) (with_swarms m t) in
     out_trace o' = out_trace o /\
     out_control o' = out_control o /\
     counters (out_state o') = counters (out_state o) /\
     swarms (out_state o') = m).
Proof.
  intros H Hcase. apply dropped_and_counted_intro. intros m.
  destruct Hcase as [[Ha Hm] | [[Ha | Ha] Hv]].
  - rewrite iteration_connect by assumption.
    now apply handle_connect_rejects.
  - rewrite iteration_announce by assumption.
    apply handle_announce_rejects_token; [assumption | exact Hv].
  - rewrite iteration_scrape by assumption.
    apply handle_scrape_rejects_token; [assumption | exact Hv].
Qed.

(** An announce with a valid token but fewer than 98 bytes is dropped and
    counted in [errors]. *)
Lemma short_announce_dropped e from wire t :
  16 <= recv_size wire < 98 ->
  be_decode (field 8 4 wire) = action_announce ->
  verify_connection_id (secret t) (hdr_connection_id wire) from = true ->
  dropped_and_counted e from wire t.
Proof.
  intros H Ha Hv. apply dropped_and_counted_intro. intros m.
  rewrite iteration_announce by (assumption || lia).
  apply handle_announce_rejects_short; [assumption | exact Hv].
Qed.

(** A datagram with a header whose action is none of connect, announce
    and scrape is dropped and counted in [errors]. *)
Lemma unknown_action_dropped e from wire t :
  16 <= recv_size wire ->
  be_decode (field 8 4 wire) <> action_connect ->
  be_decode (field 8 4 wire) <> action_announce ->
  be_decode (field 8 4 wire) <> action_scrape ->
  dropped_and_counted e from wire t.
Proof.
  intros H H0 H1 H2. apply dropped_and_counted_intro. intros m.
  rewrite iteration_dispatch by assumption. unfold dispatch.
  rewrite action_after_recv by assumption.
  destruct (Z.eqb_spec (be_decode (field 8 4 wire)) action_connect); [contradiction|].
  destruct (Z.eqb_spec (be_decode (field 8 4 wire)) action_announce); [contradiction|].
  destruct (Z.eqb_spec (be_decode (field 8 4 wire)) action_scrape); [contradiction|].
  reflexivity.
Qed.

(** C5. A datagram shorter than the 16-byte header is dropped without a
    response, but it is not counted: the iteration leaves [errors] as it
    was (only [bytes_in] moves), unlike the short announce and the unknown
    action above. *)
Theorem short_datagram_not_counted e from wire t :
  recv_size wire < 16 ->
  let o := tracker_iteration e (Received from wire) t in
  out_trace o = [] /\
  out_control o = NextDatagram /\
  out_state o = after_recv wire t /\
  errors (counters (out_state o)) = errors (counters t) /\
  bytes_in (counters (out_state o)) =
    wrap_u32 (bytes_in (counters t) + recv_size wire).
Proof.
  intros H o.
  assert (o = finish (after_recv wire t) NextDatagram) as Ho.
  { unfold o, tracker_iteration.
    destruct (recv_size wire <? 16) eqn:E; [reflexivity | apply Z.ltb_ge in E; lia]. }
  rewrite Ho. repeat split; reflexivity.
Qed.

(* ===================================================================== *)
(** * Announce *)
(* ===================================================================== *)

Lemma announce_ip_length allow from buf :
  (88 <= length buf)%nat -> length (announce_ip allow from buf) = length buf.
Proof.
  intros H. unfold announce_ip, set_hdr_ip.
  destruct (negb allow || (hdr_ip buf =? 0)); [|reflexivity].
  apply write_at_length. rewrite store_length. lia.
Qed.

(** The assignment touches the four bytes of [ip] and nothing else. *)
Lemma announce_ip_other_fields allow from buf off n :
  (88 <= length buf)%nat ->
  (off + n <= 84)%nat \/ (88 <= off)%nat ->
  field off n (announce_ip allow from buf) = field off n buf.
Proof.
  intros H Hoff. unfold announce_ip, set_hdr_ip.
  destruct (negb allow || (hdr_ip buf =? 0)); [|reflexivity].
  destruct Hoff as [Hb | Ha].
  - apply field_write_at_before; lia.
  - apply field_write_at_after; rewrite store_length; lia.
Qed.

Lemma announce_ip_field allow from buf :
  (88 <= length buf)%nat ->
  field 84 4 (announce_ip allow from buf) =
  if negb allow || (hdr_ip buf =? 0) then store 4 (sin_addr from)
  else field 84 4 buf.
Proof.
  intros H. unfold announce_ip, set_hdr_ip.
  destruct (negb allow || (hdr_ip buf =? 0)); [|reflexivity].
  pose proof (field_write_at_same 84 (store 4 (sin_addr from)) buf) as Hw.
  rewrite store_length in Hw. apply Hw. lia.
Qed.

Lemma announce_response_packet tid interval dl sd :
  firstn 20 (announce_response_bytes
    {| ar_action := htonl action_announce; ar_transaction_id := tid;
       ar_interval := htonl interval; ar_downloaders := htonl dl;
       ar_seeds := htonl sd |}) =
  be_encode 4 action_announce ++ store 4 tid ++ be_encode 4 interval ++
  be_encode 4 dl ++ be_encode 4 sd.
Proof.
  unfold announce_response_bytes.
  cbn [ar_action ar_transaction_id ar_interval ar_downloaders ar_seeds].
  rewrite !store_htonl. apply firstn_all2.
  rewrite !length_app, !be_encode_length, store_length. simpl; lia.
Qed.

(** An announce with a valid token and at least 98 bytes: the swarm is
    looked up or created, [swarm::announce] runs on the message, and the
    response goes through the single [sendmsg]. *)
Lemma handle_announce_accepts e from wire t s' buf dl sd :
  98 <= recv_size wire ->
  verify_connection_id (secret t) (hdr_connection_id wire) from = true ->
  swarm_announce
    (match swarms t !! hdr_hash wire with Some s => s | None => swarm_new end)
    (announce_hdr from wire t) (time_now e) = (s', (buf, dl, sd)) ->
  handle_announce e from (recv_size wire) (after_recv wire t) =
  sendmsg_once e
    {| pkt_to := from;
       pkt_data := be_encode 4 action_announce ++ field 12 4 wire ++
                   be_encode 4 (announce_interval (rand_value e)) ++
                   be_encode 4 dl ++ be_encode 4 sd ++ buf |}
    (with_swarms (<[hdr_hash wire := s']> (swarms t))
       (with_buffer (announce_hdr from wire t)
          (count Announces 1 (after_recv wire t)))).
Proof.
  intros H Hv Hann. unfold handle_announce.
  rewrite connection_id_after_recv by lia.
  change (secret (after_recv wire t)) with (secret t).
  rewrite Hv. cbn [negb].
  destruct (recv_size wire <? 98) eqn:E; [apply Z.ltb_lt in E; lia | clear E].
  cbv zeta.
  change (allow_alternate_ip (count Announces 1 (after_recv wire t)))
    with (allow_alternate_ip t).
  change (buffer (count Announces 1 (after_recv wire t)))
    with (recv_into (buffer t) wire).
  fold (announce_hdr from wire t).
  cbn [with_buffer buffer swarms count with_counters].
  change (swarms (after_recv wire t)) with (swarms t).
  pose proof (recv_into_length (buffer t) wire) as Hlen.
  assert (hdr_hash (announce_hdr from wire t) = hdr_hash wire) as Hh.
  { unfold hdr_hash, announce_hdr.
    rewrite announce_ip_other_fields by lia.
    apply field_recv_into. simpl; lia. }
  assert (store 4 (hdr_transaction_id (announce_hdr from wire t)) = field 12 4 wire)
    as Htid.
  { unfold hdr_transaction_id, announce_hdr.
    rewrite announce_ip_other_fields by lia.
    rewrite field_recv_into by (simpl; lia).
    assert (length (field 12 4 wire) = 4%nat) as Hl
      by (apply field_length_wire; simpl; lia).
    rewrite <- Hl at 1. apply store_load. }
  rewrite Hh, Hann.
  rewrite announce_response_packet, Htid, <- !app_assoc.
  reflexivity.
Qed.

Lemma sendmsg_once_state e pkt t :
  let o := sendmsg_once e pkt t in
  swarms (out_state o) = swarms t /\ buffer (out_state o) = buffer t /\
  secret (out_state o) = secret t /\
  connects (counters (out_state o)) = connects (counters t) /\
  announces (counters (out_state o)) = announces (counters t) /\
  scrapes (counters (out_state o)) = scrapes (counters t) /\
  errors (counters (out_state o)) = errors (counters t) /\
  bytes_in (counters (out_state o)) = bytes_in (counters t).
Proof.
  unfold sendmsg_once.
  destruct (send_results e) as [|[n| |err] rest]; cbn; tauto.
Qed.

Lemma sendmsg_once_packets e pkt t :
  Forall (fun ev : send_event => fst ev = pkt) (out_trace (sendmsg_once e pkt t)).
Proof.
  unfold sendmsg_once.
  destruct (send_results e) as [|[n| |err] rest]; cbn; repeat constructor.
Qed.

(** What the iteration does with an accepted announce, in one equation. *)
Lemma iteration_announce_accepted e from wire t s' buf dl sd :
  98 <= recv_size wire ->
  be_decode (field 8 4 wire) = action_announce ->
  verify_connection_id (secret t) (hdr_connection_id wire) from = true ->
  swarm_announce
    (match swarms t !! hdr_hash wire with Some s => s | None => swarm_new end)
    (announce_hdr from wire t) (time_now e) = (s', (buf, dl, sd)) ->
  tracker_iteration e (Received from wire) t =
  sendmsg_once e
    {| pkt_to := from;
       pkt_data := be_encode 4 action_announce ++ field 12 4 wire ++
                   be_encode 4 (announce_interval (rand_value e)) ++
                   be_encode 4 dl ++ be_encode 4 sd ++ buf |}
    (with_swarms (<[hdr_hash wire := s']> (swarms t))
       (with_buffer (announce_hdr from wire t)
          (count Announces 1 (after_recv wire t)))).
Proof.
  intros H Ha Hv Hann. rewrite iteration_announce by (assumption || lia).
  now apply handle_announce_accepts.
Qed.

(** C9. For an announce that passes the token and length checks, the
    message handed to [swarm::announce] (from which the swarm records the
    peer and builds the peers it returns) carries the datagram's source
    address in its [ip] field whenever [allow_alternate_ip] is false or
    the request's [ip] field is zero; the client-supplied [ip] is kept
    only when [allow_alternate_ip] is true and the field is nonzero.  The
    rest of the message is as received, the swarm stored under the
    info-hash is the one [swarm::announce] produced from that message, and
    the peers sent back are the ones it returned. *)
Theorem announce_ip_resolution e from wire t :
  98 <= recv_size wire ->
  be_decode (field 8 4 wire) = action_announce ->
  verify_connection_id (secret t) (hdr_connection_id wire) from = true ->
  let o := tracker_iteration e (Received from wire) t in
  let hdr := buffer (out_state o) in
  let s := match swarms t !! hdr_hash wire with
           | Some s => s
           | None => swarm_new
           end in
  let r := swarm_announce s hdr (time_now e) in
  (allow_alternate_ip t = false \/ field 84 4 wire = [x00; x00; x00; x00] ->
   field 84 4 hdr = store 4 (sin_addr from)) /\
  (allow_alternate_ip t = true -> field 84 4 wire <> [x00; x00; x00; x00] ->
   field 84 4 hdr = field 84 4 wire) /\
  field 0 84 hdr = field 0 84 wire /\
  field 88 10 hdr = field 88 10 wire /\
  swarms (out_state o) = <[hdr_hash wire := r.1]> (swarms t) /\
  Forall (fun ev : send_event =>
            pkt_to (fst ev) = from /\
            skipn 20 (pkt_data (fst ev)) = r.2.1.1) (out_trace o).
Proof.
  intros H Ha Hv o hdr s r.
  destruct (swarm_announce s (announce_hdr from wire t) (time_now e))
    as [s' [[buf dl] sd]] eqn:Hann.
  pose proof (iteration_announce_accepted e from wire t s' buf dl sd H Ha Hv Hann)
    as Ho.
  fold o in Ho.
  match type of Ho with _ = sendmsg_once _ ?p ?st =>
    pose proof (sendmsg_once_state e p st) as Hst;
    pose proof (sendmsg_once_packets e p st) as Hpk
  end.
  cbv zeta in Hst. rewrite <- Ho in Hst, Hpk.
  destruct Hst as (Hsw & Hbuf & _).
  assert (hdr = announce_hdr from wire t) as Hhdr by exact Hbuf.
  assert (r = (s', (buf, dl, sd))) as Hr by (unfold r; rewrite Hhdr; exact Hann).
  pose proof (recv_into_length (buffer t) wire) as Hlen.
  assert (length (field 84 4 wire) = 4%nat) as Hl4
    by (apply field_length_wire; simpl; lia).
  assert (hdr_ip (recv_into (buffer t) wire) = hdr_ip wire) as Hip.
  { unfold hdr_ip. now rewrite field_recv_into by (simpl; lia). }
  assert (field 84 4 hdr =
          if negb (allow_alternate_ip t) || (hdr_ip wire =? 0)
          then store 4 (sin_addr from) else field 84 4 wire) as Hfield.
  { rewrite Hhdr. unfold announce_hdr. rewrite announce_ip_field by lia.
    rewrite Hip. now rewrite field_recv_into by (simpl; lia). }
  repeat split.
  - intros [Hallow | Hzero]; rewrite Hfield.
    + now rewrite Hallow.
    + apply (load_zero_iff _ Hl4) in Hzero. unfold hdr_ip. rewrite Hzero.
      now rewrite orb_true_r.
  - intros Hallow Hnz. rewrite Hfield, Hallow. cbn [negb orb].
    destruct (Z.eqb_spec (hdr_ip wire) 0) as [Hz|Hz]; [|reflexivity].
    apply (load_zero_iff _ Hl4) in Hz. contradiction.
  - rewrite Hhdr. unfold announce_hdr.
    rewrite announce_ip_other_fields by lia.
    apply field_recv_into. simpl; lia.
  - rewrite Hhdr. unfold announce_hdr.
    rewrite announce_ip_other_fields by lia.
    apply field_recv_into. simpl; lia.
  - rewrite Hsw, Hr. reflexivity.
  - rewrite Hr. cbn [fst snd].
    eapply Forall_impl; [exact Hpk|].
    intros ev ->. cbn [pkt_to pkt_data fst]. split; [reflexivity|].
    rewrite !app_assoc. apply drop_app_length'.
    rewrite !length_app, !be_encode_length, field_length_wire by (simpl; lia).
    reflexivity.
Qed.

(** C7. On the announce path a send interrupted by a signal is not
    retried: the [continue] of the [do { } while (false)] loop leaves the
    loop, so there is exactly one [sendmsg] call, nothing leaves the host,
    and the worker goes on to the next datagram, whatever a second call
    would have returned. *)
Theorem announce_interrupted_send_not_retried e from wire t rest :
  98 <= recv_size wire ->
  be_decode (field 8 4 wire) = action_announce ->
  verify_connection_id (secret t) (hdr_connection_id wire) from = true ->
  send_results e = Interrupted :: rest ->
  let o := tracker_iteration e (Received from wire) t in
  (exists pkt, out_trace o = [(pkt, Interrupted)]) /\
  delivered (out_trace o) = [] /\
  out_control o = NextDatagram /\
  announces (counters (out_state o)) = wrap_u32 (announces (counters t) + 1).
Proof.
  intros H Ha Hv Hsend o.
  destruct (swarm_announce
              (match swarms t !! hdr_hash wire with Some s => s | None => swarm_new end)
              (announce_hdr from wire t) (time_now e))
    as [s' [[buf dl] sd]] eqn:Hann.
  unfold o.
  rewrite (iteration_announce_accepted e from wire t s' buf dl sd H Ha Hv Hann).
  unfold sendmsg_once. rewrite Hsend.
  cbn [out_trace out_control out_state].
  repeat split; try reflexivity. eexists. reflexivity.
Qed.

(** On the announce path too, any other send error ends the thread. *)
Lemma announce_send_failure_terminates e from wire t err rest :
  98 <= recv_size wire ->
  be_decode (field 8 4 wire) = action_announce ->
  verify_connection_id (secret t) (hdr_connection_id wire) from = true ->
  send_results e = Failed err :: rest ->
  out_control (tracker_iteration e (Received from wire) t) = ThreadExit.
Proof.
  intros H Ha Hv Hsend.
  destruct (swarm_announce
              (match swarms t !! hdr_hash wire with Some s => s | None => swarm_new end)
              (announce_hdr from wire t) (time_now e))
    as [s' [[buf dl] sd]] eqn:Hann.
  rewrite (iteration_announce_accepted e from wire t s' buf dl sd H Ha Hv Hann).
  unfold sendmsg_once. rewrite Hsend. reflexivity.
Qed.

(** The connect path does retry: [respond] loops on EINTR. *)
Lemma connect_send_retried e from wire t k n rest :
  16 <= recv_size wire ->
  be_decode (field 8 4 wire) = action_connect ->
  be_decode (field 0 8 wire) = connect_magic ->
  send_results e = repeat Interrupted k ++ Returned n :: rest ->
  let o := tracker_iteration e (Received from wire) t in
  exists pkt,
    out_trace o = repeat (pkt, Interrupted) k ++ [(pkt, Returned n)] /\
    delivered (out_trace o) = [pkt] /\
    out_control o = NextDatagram.
Proof.
  intros H Ha Hm Hsend o. unfold o.
  rewrite iteration_connect, handle_connect_accepts by assumption.
  eexists. match goal with |- context [respond_then e ?p ?st] =>
    destruct (respond_then_sent e p st k n rest Hsend) as (H1 & H2 & H3 & _) end.
  repeat split; eassumption.
Qed.

Lemma connect_send_failure_terminates e from wire t k err rest :
  16 <= recv_size wire ->
  be_decode (field 8 4 wire) = action_connect ->
  be_decode (field 0 8 wire) = connect_magic ->
  send_results e = repeat Interrupted k ++ Failed err :: rest ->
  out_control (tracker_iteration e (Received from wire) t) = ThreadExit.
Proof.
  intros H Ha Hm Hsend.
  rewrite iteration_connect, handle_connect_accepts by assumption.
  match goal with |- context [respond_then e ?p ?st] =>
    destruct (respond_then_failed e p st k err rest Hsend) as (_ & _ & H3) end.
  exact H3.
Qed.

(* ===================================================================== *)
(** * Scrape *)
(* ===================================================================== *)

Lemma scrape_data_bytes_length d : length (scrape_data_bytes d) = 12%nat.
Proof.
  unfold scrape_data_bytes. rewrite !length_app, !store_length. reflexivity.
Qed.

Lemma concat_scrape_length (l : list scrape_data) :
  length (concat (map scrape_data_bytes l)) = (12 * length l)%nat.
Proof.
  induction l as [|d l IH]; [reflexivity|].
  cbn [map concat length]. rewrite length_app, scrape_data_bytes_length, IH. lia.
Qed.

Lemma firstn_concat_scrape (k : nat) (l : list scrape_data) :
  firstn (12 * k) (concat (map scrape_data_bytes l)) =
  concat (map scrape_data_bytes (firstn k l)).
Proof.
  revert l. induction k as [|k IH]; intros l; [reflexivity|].
  destruct l as [|d l]; [reflexivity|].
  cbn [map concat firstn].
  replace (12 * S k)%nat with (length (scrape_data_bytes d) + 12 * k)%nat
    by (rewrite scrape_data_bytes_length; lia).
  rewrite firstn_app_2, IH. reflexivity.
Qed.

Lemma field_concat_scrape (i : nat) (l : list scrape_data) (d : scrape_data) :
  l !! i = Some d ->
  field (12 * i) 12 (concat (map scrape_data_bytes l)) = scrape_data_bytes d.
Proof.
  revert i. induction l as [|x l IH]; intros i Hi; [discriminate|].
  destruct i as [|i]; cbn [map concat].
  - injection Hi as ->.
    pose proof (field_prefix (scrape_data_bytes d)
                  (concat (map scrape_data_bytes l))) as Hp.
    rewrite scrape_data_bytes_length in Hp. exact Hp.
  - replace (12 * S i)%nat with (length (scrape_data_bytes x) + 12 * i)%nat
      by (rewrite scrape_data_bytes_length; lia).
    rewrite field_app_r. now apply IH.
Qed.

Lemma scrape_one_eq m req data i :
  scrape_one m req data i =
  match m !! req_hash i req with
  | Some s => <[i := scrape_entry s]> data
  | None => data
  end.
Proof. reflexivity. Qed.

Lemma scrape_loop_length m req k data :
  length (fold_left (scrape_one m req) (seq 0 k) data) = length data.
Proof.
  induction k as [|k IH]; [reflexivity|].
  rewrite seq_S, fold_left_app. cbn [fold_left Nat.add].
  rewrite scrape_one_eq. destruct (m !! req_hash k req); [|exact IH].
  now rewrite length_insert.
Qed.

(** After [k] rounds, entry [i < k] holds the counters of the swarm of
    the [i]-th hash if there is one, and is otherwise what it was before
    the loop; entries from [k] on are untouched. *)
Lemma scrape_loop_lookup m req k (data : list scrape_data) (i : nat) :
  (k <= length data)%nat ->
  fold_left (scrape_one m req) (seq 0 k) data !! i =
  if (i <? k)%nat
  then match m !! req_hash i req with
       | Some s => Some (scrape_entry s)
       | None => data !! i
       end
  else data !! i.
Proof.
  induction k as [|k IH]; intros Hk; [reflexivity|].
  rewrite seq_S, fold_left_app. cbn [fold_left Nat.add].
  rewrite scrape_one_eq.
  specialize (IH ltac:(lia)).
  destruct (Nat.ltb_spec i (S k)) as [Hlt|Hge].
  - destruct (Nat.eq_dec i k) as [->|Hne].
    + destruct (m !! req_hash k req) as [s|] eqn:E.
      * apply list_lookup_insert_eq. rewrite scrape_loop_length. lia.
      * rewrite IH. rewrite (proj2 (Nat.ltb_ge k k)) by lia. reflexivity.
    + assert ((i <? k)%nat = true) as Hik by (apply Nat.ltb_lt; lia).
      destruct (m !! req_hash k req) as [s|].
      * rewrite list_lookup_insert_ne by lia. now rewrite IH, Hik.
      * now rewrite IH, Hik.
  - assert ((i <? k)%nat = false) as Hik by (apply Nat.ltb_ge; lia).
    destruct (m !! req_hash k req) as [s|].
    + rewrite list_lookup_insert_ne by lia. now rewrite IH, Hik.
    + now rewrite IH, Hik.
Qed.

Lemma scrape_loop_ext m req req' k data :
  (forall i, (i < k)%nat -> req_hash i req = req_hash i req') ->
  fold_left (scrape_one m req) (seq 0 k) data =
  fold_left (scrape_one m req') (seq 0 k) data.
Proof.
  induction k as [|k IH]; intros H; [reflexivity|].
  rewrite seq_S, !fold_left_app. cbn [fold_left Nat.add].
  rewrite IH by (intros i Hi; apply H; lia).
  rewrite !scrape_one_eq, (H k) by lia. reflexivity.
Qed.

Lemma uninit_lookup e (i n : nat) :
  (i < n)%nat -> map (uninit_data e) (seq 0 n) !! i = Some (uninit_data e i).
Proof.
  intros H. change (map (uninit_data e) (seq 0 n)) with (uninit_data e <$> seq 0 n).
  rewrite list_lookup_fmap, lookup_seq_lt by assumption. reflexivity.
Qed.

(** The hash count the code reads off the size is the floor. *)
Lemma scrape_hash_count size :
  16 <= size -> Z.quot (size - 16) 20 = (size - 16) / 20.
Proof. intros H. apply Z.quot_div_nonneg; lia. Qed.

Lemma scrape_num_hashes_spec size :
  16 <= size ->
  scrape_num_hashes size = Z.min ((size - 16) / 20) max_scrape_responses.
Proof. intros H. unfold scrape_num_hashes. now rewrite scrape_hash_count. Qed.

Lemma req_hash_recv_into (i : nat) buf wire :
  16 + 20 * (Z.of_nat i + 1) <= recv_size wire ->
  req_hash i (recv_into buf wire) = req_hash i wire.
Proof. intros H. unfold req_hash. apply field_recv_into. lia. Qed.

Lemma scrape_hashes_in_datagram (i : nat) size :
  16 <= size ->
  Z.of_nat i < scrape_num_hashes size ->
  16 + 20 * (Z.of_nat i + 1) <= size.
Proof.
  intros H Hi. rewrite scrape_num_hashes_spec in Hi by assumption.
  pose proof (Z.mul_div_le (size - 16) 20 ltac:(lia)). lia.
Qed.

Lemma scrape_packet_recv_into e from m buf wire :
  16 <= recv_size wire ->
  scrape_packet e from m (recv_into buf wire) (recv_size wire) =
  scrape_packet e from m wire (recv_size wire).
Proof.
  intros H. unfold scrape_packet, scrape_response. cbv zeta.
  assert (hdr_transaction_id (recv_into buf wire) = hdr_transaction_id wire) as ->.
  { unfold hdr_transaction_id. now rewrite field_recv_into by (simpl; lia). }
  rewrite (scrape_loop_ext m (recv_into buf wire) wire); [reflexivity|].
  intros i Hi.
  apply req_hash_recv_into, scrape_hashes_in_datagram; [assumption | lia].
Qed.

(** A scrape with a valid token and at least one hash is answered through
    [respond]. *)
Lemma iteration_scrape_accepted e from wire t :
  36 <= recv_size wire ->
  be_decode (field 8 4 wire) = action_scrape ->
  verify_connection_id (secret t) (hdr_connection_id wire) from = true ->
  tracker_iteration e (Received from wire) t =
  respond_then e (scrape_packet e from (swarms t) wire (recv_size wire))
    (count Scrapes 1 (after_recv wire t)).
Proof.
  intros H Ha Hv. rewrite iteration_scrape by (assumption || lia).
  unfold handle_scrape.
  rewrite connection_id_after_recv by lia.
  change (secret (after_recv wire t)) with (secret t).
  rewrite Hv. cbn [negb].
  destruct (recv_size wire <? 16 + 20) eqn:E; [apply Z.ltb_lt in E; lia | clear E].
  cbv zeta.
  change (swarms (count Scrapes 1 (after_recv wire t))) with (swarms t).
  change (buffer (count Scrapes 1 (after_recv wire t)))
    with (recv_into (buffer t) wire).
  now rewrite scrape_packet_recv_into by lia.
Qed.

(** The bytes of the scrape response: the 8-byte header and the first
    [num_hashes] entries. *)
Lemma scrape_packet_data e from m wire size :
  16 <= size <= recv_size wire ->
  0 <= scrape_num_hashes size ->
  pkt_data (scrape_packet e from m wire size) =
  (be_encode 4 action_scrape ++ field 12 4 wire) ++
  concat (map scrape_data_bytes
            (firstn (Z.to_nat (scrape_num_hashes size))
               (sr_data (scrape_response e m wire (scrape_num_hashes size))))).
Proof.
  intros H Hn. unfold scrape_packet. cbv zeta. cbn [pkt_data].
  set (n := scrape_num_hashes size) in *.
  unfold scrape_response_bytes.
  set (data := sr_data (scrape_response e m wire n)).
  cbn [sr_action sr_transaction_id scrape_response].
  rewrite store_htonl.
  assert (store 4 (hdr_transaction_id wire) = field 12 4 wire) as Htid.
  { unfold hdr_transaction_id.
    assert (length (field 12 4 wire) = 4%nat) as Hl
      by (apply field_length_wire; simpl; lia).
    rewrite <- Hl at 1. apply store_load. }
  rewrite Htid, app_assoc.
  assert (length (be_encode 4 action_scrape ++ field 12 4 wire) = 8%nat) as Hl8.
  { rewrite length_app, be_encode_length, field_length_wire by (simpl; lia).
    reflexivity. }
  replace (Z.to_nat (8 + n * 12))
    with (length (be_encode 4 action_scrape ++ field 12 4 wire) + 12 * Z.to_nat n)%nat
    by (rewrite Hl8; lia).
  now rewrite firstn_app_2, firstn_concat_scrape.
Qed.

Lemma scrape_data_length e m wire n :
  length (sr_data (scrape_response e m wire n)) = Z.to_nat max_scrape_responses.
Proof.
  cbn [sr_data scrape_response].
  now rewrite scrape_loop_length, length_map, length_seq.
Qed.

(** Entry [i] of the answered entries. *)
Lemma scrape_packet_slot e from m wire size (i : nat) :
  16 <= size <= recv_size wire ->
  Z.of_nat i < scrape_num_hashes size ->
  field (8 + 12 * i) 12 (pkt_data (scrape_packet e from m wire size)) =
  scrape_data_bytes
    (match m !! req_hash i wire with
     | Some s => scrape_entry s
     | None => uninit_data e i
     end).
Proof.
  intros H Hi.
  assert (scrape_num_hashes size <= max_scrape_responses) as Hmax
    by (unfold scrape_num_hashes; lia).
  rewrite scrape_packet_data by lia.
  assert (length (be_encode 4 action_scrape ++ field 12 4 wire) = 8%nat) as Hl8.
  { rewrite length_app, be_encode_length, field_length_wire by (simpl; lia).
    reflexivity. }
  rewrite <- Hl8 at 1. rewrite field_app_r.
  apply field_concat_scrape.
  rewrite lookup_take_lt by lia.
  cbn [sr_data scrape_response].
  rewrite scrape_loop_lookup by (rewrite length_map, length_seq; lia).
  rewrite (proj2 (Nat.ltb_lt i _)) by lia.
  destruct (m !! req_hash i wire); [reflexivity|].
  apply uninit_lookup. lia.
Qed.

Lemma scrape_packet_length e from m wire size :
  16 <= size <= recv_size wire ->
  0 <= max_scrape_responses ->
  Z.of_nat (length (pkt_data (scrape_packet e from m wire size))) =
  8 + 12 * scrape_num_hashes size.
Proof.
  intros H Hmax.
  assert (0 <= scrape_num_hashes size <= max_scrape_responses) as Hn.
  { rewrite scrape_num_hashes_spec by lia.
    pose proof (Z.div_pos (size - 16) 20 ltac:(lia) ltac:(lia)). lia. }
  rewrite scrape_packet_data by lia.
  rewrite length_app, concat_scrape_length, length_firstn, scrape_data_length.
  rewrite length_app, be_encode_length, field_length_wire by (simpl; lia).
  lia.
Qed.

(** The entry of a hash whose swarm exists: the swarm's counters in
    network byte order. *)
Lemma scrape_present_slot e from wire t (i : nat) s sd dc dl k n rest :
  36 <= recv_size wire ->
  be_decode (field 8 4 wire) = action_scrape ->
  verify_connection_id (secret t) (hdr_connection_id wire) from = true ->
  Z.of_nat i < scrape_num_hashes (recv_size wire) ->
  swarms t !! req_hash i wire = Some s ->
  swarm_scrape s = (sd, dc, dl) ->
  send_results e = repeat Interrupted k ++ Returned n :: rest ->
  let o := tracker_iteration e (Received from wire) t in
  exists pkt,
    delivered (out_trace o) = [pkt] /\
    field (8 + 12 * i) 12 (pkt_data pkt) =
    be_encode 4 sd ++ be_encode 4 dc ++ be_encode 4 dl.
Proof.
  intros H Ha Hv Hi Hs Hsc Hsend o. unfold o.
  rewrite iteration_scrape_accepted by assumption.
  match goal with |- context [respond_then e ?p ?st] =>
    destruct (respond_then_sent e p st k n rest Hsend) as (_ & Hd & _) end.
  eexists. split; [exact Hd|].
  rewrite scrape_packet_slot by lia. rewrite Hs.
  unfold scrape_entry, scrape_data_bytes. rewrite Hsc.
  cbn [seeds download_count downloaders]. now rewrite !store_htonl.
Qed.

(** C3. The entry of a requested hash for which no swarm exists is not
    written by the loop: the response carries, in that slot, whatever the
    uninitialised response object held there, not zeros. *)
Theorem scrape_absent_slot_not_zeroed e from wire t (i : nat) k n rest :
  36 <= recv_size wire ->
  be_decode (field 8 4 wire) = action_scrape ->
  verify_connection_id (secret t) (hdr_connection_id wire) from = true ->
  Z.of_nat i < scrape_num_hashes (recv_size wire) ->
  swarms t !! req_hash i wire = None ->
  send_results e = repeat Interrupted k ++ Returned n :: rest ->
  let o := tracker_iteration e (Received from wire) t in
  exists pkt,
    delivered (out_trace o) = [pkt] /\
    field (8 + 12 * i) 12 (pkt_data pkt) = scrape_data_bytes (uninit_data e i).
Proof.
  intros H Ha Hv Hi Hs Hsend o. unfold o.
  rewrite iteration_scrape_accepted by assumption.
  match goal with |- context [respond_then e ?p ?st] =>
    destruct (respond_then_sent e p st k n rest Hsend) as (_ & Hd & _) end.
  eexists. split; [exact Hd|].
  rewrite scrape_packet_slot by lia. now rewrite Hs.
Qed.

(** C8, amended. A scrape with a valid token and at least 36 bytes is
    answered for [min (floor ((size - 16) / 20)) max_scrape_responses]
    hashes: every send call of the iteration carries exactly
    [8 + 12 * that number] bytes, entry [i] being the answer for the
    [i]-th hash of the request, and that datagram is what leaves the host
    when the send goes through. *)
Theorem scrape_response_length e from wire t :
  36 <= recv_size wire ->
  be_decode (field 8 4 wire) = action_scrape ->
  verify_connection_id (secret t) (hdr_connection_id wire) from = true ->
  0 <= max_scrape_responses ->
  let size := recv_size wire in
  let n := Z.min ((size - 16) / 20) max_scrape_responses in
  let o := tracker_iteration e (Received from wire) t in
  scrape_num_hashes size = n /\
  Forall (fun ev : send_event =>
            Z.of_nat (length (pkt_data (fst ev))) = 8 + 12 * n) (out_trace o) /\
  (forall k r rest,
     send_results e = repeat Interrupted k ++ Returned r :: rest ->
     exists pkt,
       delivered (out_trace o) = [pkt] /\
       Z.of_nat (length (pkt_data pkt)) = 8 + 12 * n /\
       forall i : nat,
         Z.of_nat i < n ->
         field (8 + 12 * i) 12 (pkt_data pkt) =
         scrape_data_bytes
           (match swarms t !! req_hash i wire with
            | Some s => scrape_entry s
            | None => uninit_data e i
            end)).
Proof.
  intros H Ha Hv Hmax size n o.
  assert (scrape_num_hashes size = n) as Hn
    by (unfold n; apply scrape_num_hashes_spec; unfold size; lia).
  assert (o = respond_then e (scrape_packet e from (swarms t) wire size)
                (count Scrapes 1 (after_recv wire t))) as Ho
    by (unfold o, size; now apply iteration_scrape_accepted).
  assert (Z.of_nat (length (pkt_data (scrape_packet e from (swarms t) wire size))) =
          8 + 12 * n) as Hlen.
  { rewrite <- Hn. apply scrape_packet_length; [unfold size; lia | assumption]. }
  repeat split.
  - exact Hn.
  - rewrite Ho. eapply Forall_impl; [apply respond_then_packets|].
    intros ev ->. exact Hlen.
  - intros k r rest Hsend. rewrite Ho.
    match goal with |- context [respond_then e ?p ?st] =>
      destruct (respond_then_sent e p st k r rest Hsend) as (_ & Hd & _) end.
    eexists. split; [exact Hd|]. split; [exact Hlen|].
    intros i Hi. apply scrape_packet_slot; [unfold size; lia|].
    rewrite Hn. exact Hi.
Qed.

(* ===================================================================== *)
(** * Short scrapes and trailing bytes *)
(* ===================================================================== *)

Lemma respond_independent os pkt s1 s2 :
  (respond os pkt s1).1.2 = (respond os pkt s2).1.2 /\
  (respond os pkt s1).2 = (respond os pkt s2).2 /\
  (bytes_out s1 = bytes_out s2 ->
   bytes_out (respond os pkt s1).1.1 = bytes_out (respond os pkt s2).1.1).
Proof.
  induction os as [|r os IH]; [cbn; tauto|].
  destruct r as [n| |err]; cbn.
  - repeat split. intros ->. reflexivity.
  - destruct (respond os pkt s1) as [[a1 b1] c1], (respond os pkt s2) as [[a2 b2] c2].
    cbn in *. destruct IH as (-> & -> & IH). tauto.
  - tauto.
Qed.

Lemma respond_then_independent e pkt t1 t2 :
  swarms t1 = swarms t2 ->
  bytes_out (counters t1) = bytes_out (counters t2) ->
  let o1 := respond_then e pkt t1 in
  let o2 := respond_then e pkt t2 in
  out_trace o1 = out_trace o2 /\ out_control o1 = out_control o2 /\
  swarms (out_state o1) = swarms (out_state o2) /\
  bytes_out (counters (out_state o1)) = bytes_out (counters (out_state o2)).
Proof.
  intros Hsw Hb. unfold respond_then.
  pose proof (respond_independent (send_results e) pkt (counters t1) (counters t2))
    as (Htr & Hres & Hbo).
  destruct (respond (send_results e) pkt (counters t1)) as [[a1 b1] c1].
  destruct (respond (send_results e) pkt (counters t2)) as [[a2 b2] c2].
  cbn in *. subst. repeat split; auto.
Qed.

Lemma recv_size_firstn (n : nat) wire :
  Z.of_nat n <= recv_size wire -> recv_size (firstn n wire) = Z.of_nat n.
Proof.
  intros H. unfold recv_size, buffer_size in *.
  rewrite !length_firstn in *. lia.
Qed.

(** Cutting a scrape datagram after its last complete hash changes
    nothing in the packet the tracker builds. *)
Lemma scrape_packet_truncated e from m wire :
  36 <= recv_size wire ->
  let k := (recv_size wire - 16) / 20 in
  let wire' := firstn (Z.to_nat (16 + 20 * k)) wire in
  recv_size wire' = 16 + 20 * k /\
  scrape_packet e from m wire' (recv_size wire') =
  scrape_packet e from m wire (recv_size wire).
Proof.
  intros H k wire'.
  assert (1 <= k) as Hk.
  { unfold k. apply Z.div_le_lower_bound; lia. }
  assert (16 + 20 * k <= recv_size wire) as Hfit.
  { unfold k. pose proof (Z.mul_div_le (recv_size wire - 16) 20 ltac:(lia)). lia. }
  assert (recv_size wire' = 16 + 20 * k) as Hsz.
  { unfold wire'. rewrite recv_size_firstn by lia. lia. }
  split; [exact Hsz|].
  assert (scrape_num_hashes (recv_size wire') = scrape_num_hashes (recv_size wire))
    as Hn.
  { rewrite !scrape_num_hashes_spec by lia. rewrite Hsz. fold k.
    replace (16 + 20 * k - 16) with (k * 20) by lia.
    now rewrite Z.div_mul by lia. }
  unfold scrape_packet, scrape_response. cbv zeta. rewrite Hn.
  assert (hdr_transaction_id wire' = hdr_transaction_id wire) as ->.
  { unfold hdr_transaction_id, wire'. rewrite field_firstn by lia. reflexivity. }
  rewrite (scrape_loop_ext m wire' wire); [reflexivity|].
  intros i Hi. unfold req_hash, wire'. apply field_firstn.
  assert (Z.of_nat i < scrape_num_hashes (recv_size wire)) as Hi' by lia.
  rewrite scrape_num_hashes_spec in Hi' by lia. fold k in Hi'. lia.
Qed.

(** C10. A scrape datagram must carry one complete 20-byte hash: with 16
    to 35 bytes it is rejected, nothing is sent and [errors] is
    incremented by 1.  With a valid token and 36 bytes or more the hash
    count the code reads off the size is [floor ((size - 16) / 20)], and
    the bytes after the last complete hash are ignored without an error:
    the datagram cut after that hash gets the same send calls, the same
    response and the same counters (other than [bytes_in]). *)
Theorem scrape_needs_a_hash_and_ignores_the_tail e from wire t :
  16 <= recv_size wire ->
  be_decode (field 8 4 wire) = action_scrape ->
  let size := recv_size wire in
  let o := tracker_iteration e (Received from wire) t in
  (size < 36 ->
   out_trace o = [] /\
   out_control o = NextDatagram /\
   errors (counters (out_state o)) = wrap_u32 (errors (counters t) + 1) /\
   scrapes (counters (out_state o)) = scrapes (counters t) /\
   swarms (out_state o) = swarms t) /\
  (verify_connection_id (secret t) (hdr_connection_id wire) from = true ->
   36 <= size ->
   let k := (size - 16) / 20 in
   let wire' := firstn (Z.to_nat (16 + 20 * k)) wire in
   let o' := tracker_iteration e (Received from wire') t in
   Z.quot (size - 16) 20 = k /\
   scrape_num_hashes size = Z.min k max_scrape_responses /\
   recv_size wire' = 16 + 20 * k /\
   out_trace o' = out_trace o /\
   out_control o' = out_control o /\
   swarms (out_state o') = swarms (out_state o) /\
   errors (counters (out_state o)) = errors (counters t) /\
   errors (counters (out_state o')) = errors (counters (out_state o)) /\
   scrapes (counters (out_state o')) = scrapes (counters (out_state o)) /\
   bytes_out (counters (out_state o')) = bytes_out (counters (out_state o))).
Proof.
  intros H Ha size o. split.
  - intros Hshort.
    assert (o = finish (count Errors 1 (after_recv wire t)) NextDatagram) as Ho.
    { unfold o. rewrite iteration_scrape by assumption.
      destruct (verify_connection_id (secret t) (hdr_connection_id wire) from)
        eqn:Hv.
      - apply handle_scrape_rejects_short; [unfold size in Hshort; lia | exact Hv].
      - apply handle_scrape_rejects_token; [assumption | exact Hv]. }
    rewrite Ho. repeat split; reflexivity.
  - intros Hv Hlong k wire' o'.
    destruct (scrape_packet_truncated e from (swarms t) wire Hlong) as [Hsz Hpkt].
    fold size k wire' in Hsz, Hpkt.
    assert (1 <= k) as Hk by (unfold k; apply Z.div_le_lower_bound; lia).
    assert (o = respond_then e (scrape_packet e from (swarms t) wire size)
                  (count Scrapes 1 (after_recv wire t))) as Ho
      by (unfold o, size; now apply iteration_scrape_accepted).
    assert (o' = respond_then e (scrape_packet e from (swarms t) wire size)
                   (count Scrapes 1 (after_recv wire' t))) as Ho'.
    { unfold o'. rewrite iteration_scrape_accepted.
      - now rewrite Hpkt.
      - lia.
      - rewrite <- Ha. unfold wire'. f_equal. apply field_firstn. lia.
      - rewrite <- Hv. f_equal. unfold hdr_connection_id, wire'. f_equal.
        apply field_firstn. lia. }
    pose proof (respond_then_independent e
                  (scrape_packet e from (swarms t) wire size)
                  (count Scrapes 1 (after_recv wire' t))
                  (count Scrapes 1 (after_recv wire t))
                  eq_refl eq_refl) as Hind.
    cbv zeta in Hind. rewrite <- Ho, <- Ho' in Hind.
    destruct Hind as (Htr & Hctl & Hsw & Hbo).
    pose proof (respond_then_state e (scrape_packet e from (swarms t) wire size)
                  (count Scrapes 1 (after_recv wire t))) as Hst.
    pose proof (respond_then_state e (scrape_packet e from (swarms t) wire size)
                  (count Scrapes 1 (after_recv wire' t))) as Hst'.
    cbv zeta in Hst, Hst'. rewrite <- Ho in Hst. rewrite <- Ho' in Hst'.
    destruct Hst as (_ & _ & _ & _ & _ & Hs1 & He1 & _).
    destruct Hst' as (_ & _ & _ & _ & _ & Hs2 & He2 & _).
    repeat split; try assumption.
    + apply scrape_hash_count. unfold size. lia.
    + apply scrape_num_hashes_spec. unfold size. lia.
    + rewrite He1, He2. reflexivity.
    + rewrite Hs1, Hs2. reflexivity.
Qed.

(* ===================================================================== *)
(** * Send errors on the scrape path, and the end of the thread *)
(* ===================================================================== *)

(** The scrape path goes through [respond] and retries. *)
Lemma scrape_send_retried e from wire t k n rest :
  36 <= recv_size wire ->
  be_decode (field 8 4 wire) = action_scrape ->
  verify_connection_id (secret t) (hdr_connection_id wire) from = true ->
  send_results e = repeat Interrupted k ++ Returned n :: rest ->
  let o := tracker_iteration e (Received from wire) t in
  exists pkt,
    out_trace o = repeat (pkt, Interrupted) k ++ [(pkt, Returned n)] /\
    delivered (out_trace o) = [pkt] /\
    out_control o = NextDatagram.
Proof.
  intros H Ha Hv Hsend o. unfold o.
  rewrite iteration_scrape_accepted by assumption.
  eexists. match goal with |- context [respond_then e ?p ?st] =>
    destruct (respond_then_sent e p st k n rest Hsend) as (H1 & H2 & H3 & _) end.
  repeat split; eassumption.
Qed.

Lemma scrape_send_failure_terminates e from wire t k err rest :
  36 <= recv_size wire ->
  be_decode (field 8 4 wire) = action_scrape ->
  verify_connection_id (secret t) (hdr_connection_id wire) from = true ->
  send_results e = repeat Interrupted k ++ Failed err :: rest ->
  out_control (tracker_iteration e (Received from wire) t) = ThreadExit.
Proof.
  intros H Ha Hv Hsend.
  rewrite iteration_scrape_accepted by assumption.
  match goal with |- context [respond_then e ?p ?st] =>
    destruct (respond_then_failed e p st k err rest Hsend) as (_ & _ & H3) end.
  exact H3.
Qed.

(** Once an iteration ends the thread, no later datagram is looked at. *)
Lemma tracker_thread_exits e ev evs t :
  out_control (tracker_iteration e ev t) = ThreadExit ->
  tracker_thread ((e, ev) :: evs) t = tracker_iteration e ev t.
Proof. intros H. cbn [tracker_thread]. now rewrite H. Qed.

(** An interrupted [recvfrom] is retried; any other receive error ends
    the thread. *)
Lemma recv_errors e t errno :
  tracker_iteration e RecvInterrupted t = finish t NextDatagram /\
  tracker_iteration e (RecvFailed errno) t = finish t ThreadExit.
Proof. split; reflexivity. Qed.

(* ===================================================================== *)
(** * The announce interval *)
(* ===================================================================== *)

(** The [interval] field of every announce response is the big-endian
    encoding of [1680 + rand() * 240 / RAND_MAX] as the code computes it. *)
Lemma announce_response_interval e from wire t :
  98 <= recv_size wire ->
  be_decode (field 8 4 wire) = action_announce ->
  verify_connection_id (secret t) (hdr_connection_id wire) from = true ->
  Forall (fun ev : send_event =>
            field 8 4 (pkt_data (fst ev)) =
            be_encode 4 (announce_interval (rand_value e)))
         (out_trace (tracker_iteration e (Received from wire) t)).
Proof.
  intros H Ha Hv.
  destruct (swarm_announce
              (match swarms t !! hdr_hash wire with Some s => s | None => swarm_new end)
              (announce_hdr from wire t) (time_now e))
    as [s' [[buf dl] sd]] eqn:Hann.
  rewrite (iteration_announce_accepted e from wire t s' buf dl sd H Ha Hv Hann).
  eapply Forall_impl; [apply sendmsg_once_packets|].
  intros ev ->. cbn [fst pkt_data].
  assert (length (field 12 4 wire) = 4%nat) as Hl
    by (apply field_length_wire; simpl; lia).
  rewrite app_assoc.
  pose proof (field_app_r 0 4 (be_encode 4 action_announce ++ field 12 4 wire)
                (be_encode 4 (announce_interval (rand_value e)) ++
                 be_encode 4 dl ++ be_encode 4 sd ++ buf)) as Hf.
  rewrite length_app, be_encode_length, Hl in Hf. cbn [Nat.add] in Hf.
  rewrite Hf.
  pose proof (field_prefix (be_encode 4 (announce_interval (rand_value e)))
                (be_encode 4 dl ++ be_encode 4 sd ++ buf)) as Hp.
  now rewrite be_encode_length in Hp.
Qed.

(** Where [rand() * 240] cannot overflow an [int], the interval is the
    base of 1680 plus a jitter of at most 240. *)
Lemma announce_interval_without_overflow (r : Z) :
  0 < RAND_MAX -> RAND_MAX * 240 < 2 ^ 31 -> 0 <= r <= RAND_MAX ->
  1680 <= announce_interval r <= 1920.
Proof.
  intros Hpos Hsmall Hr. unfold announce_interval.
  assert (wrap_int (r * 240) = r * 240) as ->.
  { unfold wrap_int. rewrite Z.mod_small; lia. }
  rewrite Z.quot_div_nonneg by lia.
  assert (0 <= r * 240 / RAND_MAX <= 240) as Hq.
  { split; [apply Z.div_pos; lia|].
    apply Z.div_le_upper_bound; lia. }
  unfold wrap_int. rewrite Z.mod_small; lia.
Qed.

End Worker.

(** With [RAND_MAX = INT_MAX] the product wraps around, and the interval
    is never more than one second away from 1680. *)
Lemma announce_interval_glibc (r : Z) :
  1679 <= @announce_interval linux_x86_64 r <= 1681.
Proof.
  unfold announce_interval. cbn [RAND_MAX linux_x86_64].
  set (y := wrap_int (r * 240)).
  assert (- 2 ^ 31 <= y < 2 ^ 31) as Hy.
  { unfold y, wrap_int.
    pose proof (Z.mod_pos_bound (r * 240 + 2 ^ 31) (2 ^ 32) ltac:(lia)). lia. }
  assert (-1 <= Z.quot y 2147483647 <= 1) as Hq.
  { destruct (Z.le_gt_cases 0 y) as [Hpos|Hneg].
    - rewrite Z.quot_div_nonneg by lia. split.
      + pose proof (Z.div_pos y 2147483647 ltac:(lia) ltac:(lia)). lia.
      + apply Z.div_le_upper_bound; lia.
    - replace y with (- (- y)) by lia.
      rewrite Z.quot_opp_l by lia.
      rewrite Z.quot_div_nonneg by lia. split.
      + assert ((- y) / 2147483647 < 2) by (apply Z.div_lt_upper_bound; lia). lia.
      + pose proof (Z.div_pos (- y) 2147483647 ltac:(lia) ltac:(lia)). lia. }
  unfold wrap_int. rewrite Z.mod_small; lia.
Qed.

(** C4. With the C library's [RAND_MAX] equal to [INT_MAX], [rand() * 240]
    overflows: for [rand() = 2^27] the product wraps to [INT_MIN], the
    quotient is -1 and the interval sent is 1679, below 1680. *)
Theorem announce_interval_below_range :
  0 <= 134217728 <= @RAND_MAX linux_x86_64 /\
  @announce_interval linux_x86_64 134217728 = 1679 /\
  let o := Sample.step (Sample.oracle [Returned 20] 134217728) Sample.client
             (Sample.announce_request Sample.token 100 2 0) Sample.fresh in
  exists pkt,
    delivered (out_trace o) = [pkt] /\
    be_decode (field 8 4 (pkt_data pkt)) = 1679.
Proof.
  split; [cbn; lia|]. split; [reflexivity|].
  eexists. split; vm_compute; reflexivity.
Qed.

(** With the smallest [RAND_MAX] the jitter spans the whole range. *)
Example announce_interval_small_rand_max :
  @announce_interval big_endian_host 0 = 1680 /\
  @announce_interval big_endian_host 16384 = 1800 /\
  @announce_interval big_endian_host 32767 = 1920.
Proof. repeat split; reflexivity. Qed.

(** The token does not depend on the host's view of integers: the same
    endpoint bytes give the same token bytes on a big-endian host. *)
Example token_on_big_endian_host :
  @store big_endian_host 8
    (@generate_connection_id big_endian_host sha1_openssl Sample.startup_secret
       {| sin_addr := 0xC0000201; sin_port := 0x1AE1 |}) = Sample.token.
Proof. vm_compute. reflexivity. Qed.

(* ===================================================================== *)
(** * The theorems on the concrete run *)
(* ===================================================================== *)

Ltac computed := vm_compute; first [reflexivity | congruence].

(** Scenario A of the spec: the connect handshake, the first send being
    interrupted. *)
Lemma connect_handshake_witness :
  @SHA1_contract sha1_openssl /\
  16 <= recv_size Sample.connect_request /\
  be_decode (field 8 4 Sample.connect_request) = action_connect /\
  be_decode (field 0 8 Sample.connect_request) = connect_magic /\
  let o := Sample.step (Sample.oracle [Interrupted; Returned 16] 0)
             Sample.client Sample.connect_request Sample.fresh in
  delivered (out_trace o) =
    [{| pkt_to := Sample.client;
        pkt_data := be_encode 4 0 ++ be_encode 4 0xdeadbeef ++ Sample.token |}] /\
  connects (counters (out_state o)) = 1.
Proof.
  assert (16 <= recv_size Sample.connect_request) as H1 by computed.
  assert (be_decode (field 8 4 Sample.connect_request) = action_connect) as H2
    by computed.
  assert (be_decode (field 0 8 Sample.connect_request) = connect_magic) as H3
    by computed.
  pose proof (@connect_handshake linux_x86_64 sha1_openssl Sample.swarm_impl
                sha1_openssl_contract
                (Sample.oracle [Interrupted; Returned 16] 0)
                Sample.client Sample.connect_request Sample.fresh H1 H2 H3)
    as (_ & _ & _ & Hsent & Hconn & _).
  split; [exact sha1_openssl_contract|].
  split; [exact H1|]. split; [exact H2|]. split; [exact H3|].
  unfold Sample.step. split.
  - rewrite (proj1 (Hsent 1%nat 16 [] eq_refl)). vm_compute. reflexivity.
  - rewrite Hconn. vm_compute. reflexivity.
Defined.

(** A 3-byte datagram: dropped, and [errors] stays 0. *)
Lemma short_datagram_not_counted_witness :
  recv_size [x00; x01; x02] < 16 /\
  let o := Sample.step (Sample.oracle [] 0) Sample.client [x00; x01; x02]
             Sample.fresh in
  out_trace o = [] /\ errors (counters (out_state o)) = 0.
Proof.
  assert (recv_size [x00; x01; x02] < 16) as H by computed.
  pose proof (@short_datagram_not_counted linux_x86_64 sha1_openssl Sample.swarm_impl
                (Sample.oracle [] 0) Sample.client [x00; x01; x02]
                Sample.fresh H) as (Htr & _ & _ & Herr & _).
  split; [exact H|]. unfold Sample.step. split; [exact Htr|].
  rewrite Herr. vm_compute. reflexivity.
Defined.

(** Scenario C of the spec: an announce with connection_id 0. *)
Lemma authentication_failure_dropped_witness :
  let wire := Sample.announce_request (repeat x00 8) 100 2 0 in
  16 <= recv_size wire /\
  be_decode (field 8 4 wire) = action_announce /\
  @verify_connection_id linux_x86_64 sha1_openssl Sample.startup_secret
    (@hdr_connection_id linux_x86_64 wire) Sample.client = false /\
  let o := Sample.step (Sample.oracle [Returned 20] 0) Sample.client wire
             Sample.seeded in
  out_trace o = [] /\
  errors (counters (out_state o)) = 1 /\
  swarms (out_state o) = swarms Sample.seeded.
Proof.
  intros wire.
  assert (16 <= recv_size wire) as H1 by computed.
  assert (be_decode (field 8 4 wire) = action_announce) as H2 by computed.
  assert (@verify_connection_id linux_x86_64 sha1_openssl Sample.startup_secret
            (@hdr_connection_id linux_x86_64 wire) Sample.client = false) as H3
    by computed.
  pose proof (@authentication_failure_dropped linux_x86_64 sha1_openssl Sample.swarm_impl
                (Sample.oracle [Returned 20] 0) Sample.client wire
                Sample.seeded H1 (or_intror (conj (or_introl H2) H3)))
    as (Htr & _ & Herr & _ & Hsw & _).
  split; [exact H1|]. split; [exact H2|]. split; [exact H3|].
  unfold Sample.step. split; [exact Htr|]. split; [|exact Hsw].
  rewrite Herr. vm_compute. reflexivity.
Defined.

(** An announce whose send is interrupted once: the second result of the
    oracle, a success, is never asked for. *)
Lemma announce_interrupted_send_not_retried_witness :
  let wire := Sample.announce_request Sample.token 100 2 0 in
  let e := Sample.oracle [Interrupted; Returned 20] 0 in
  98 <= recv_size wire /\
  be_decode (field 8 4 wire) = action_announce /\
  @verify_connection_id linux_x86_64 sha1_openssl Sample.startup_secret
    (@hdr_connection_id linux_x86_64 wire) Sample.client = true /\
  send_results e = Interrupted :: [Returned 20] /\
  let o := Sample.step e Sample.client wire Sample.fresh in
  delivered (out_trace o) = [] /\ out_control o = NextDatagram.
Proof.
  intros wire e.
  assert (98 <= recv_size wire) as H1 by computed.
  assert (be_decode (field 8 4 wire) = action_announce) as H2 by computed.
  assert (@verify_connection_id linux_x86_64 sha1_openssl Sample.startup_secret
            (@hdr_connection_id linux_x86_64 wire) Sample.client = true) as H3
    by computed.
  pose proof (@announce_interrupted_send_not_retried linux_x86_64 sha1_openssl
                Sample.swarm_impl e Sample.client wire Sample.fresh [Returned 20]
                H1 H2 H3 eq_refl) as (_ & Hd & Hc & _).
  split; [exact H1|]. split; [exact H2|]. split; [exact H3|].
  split; [reflexivity|]. unfold Sample.step. split; [exact Hd | exact Hc].
Defined.

(** An announce that names 10.0.0.1 as its address while
    [allow_alternate_ip] is off: the swarm is handed the source address,
    and the reference swarm records the peer under 192.0.2.1:6881. *)
Lemma announce_ip_resolution_witness :
  let wire := Sample.announce_request Sample.token 100 2 0x0A000001 in
  98 <= recv_size wire /\
  be_decode (field 8 4 wire) = action_announce /\
  @verify_connection_id linux_x86_64 sha1_openssl Sample.startup_secret
    (@hdr_connection_id linux_x86_64 wire) Sample.client = true /\
  allow_alternate_ip Sample.fresh = false /\
  field 84 4 wire = [x0a; x00; x00; x01] /\
  let o := Sample.step (Sample.oracle [Returned 20] 0) Sample.client wire
             Sample.fresh in
  field 84 4 (buffer (out_state o)) =
    @store linux_x86_64 4 (sin_addr Sample.client) /\
  option_map (fun s => map SpecSwarm.endpoint (SpecSwarm.peers s))
    (swarms (out_state o) !! Sample.H1) =
    Some [[xc0; x00; x02; x01; x1a; xe1]].
Proof.
  intros wire.
  assert (98 <= recv_size wire) as H1 by computed.
  assert (be_decode (field 8 4 wire) = action_announce) as H2 by computed.
  assert (@verify_connection_id linux_x86_64 sha1_openssl Sample.startup_secret
            (@hdr_connection_id linux_x86_64 wire) Sample.client = true) as H3
    by computed.
  pose proof (@announce_ip_resolution linux_x86_64 sha1_openssl Sample.swarm_impl
                (Sample.oracle [Returned 20] 0) Sample.client wire
                Sample.fresh H1 H2 H3) as (Hsrc & _).
  split; [exact H1|]. split; [exact H2|]. split; [exact H3|].
  split; [reflexivity|]. split; [computed|].
  unfold Sample.step. split; [exact (Hsrc (or_introl eq_refl))|].
  vm_compute. reflexivity.
Defined.

(** Scenario F of the spec: a scrape for [H1], which has a swarm, and
    [H2], which has none.  The second entry of the response is the 7, 8, 9
    the oracle put in the uninitialised object. *)
Lemma scrape_absent_slot_not_zeroed_witness :
  let wire := Sample.scrape_request Sample.token [Sample.H1; Sample.H2] [] in
  let e := Sample.oracle [Returned 32] 0 in
  36 <= recv_size wire /\
  be_decode (field 8 4 wire) = action_scrape /\
  @verify_connection_id linux_x86_64 sha1_openssl Sample.startup_secret
    (@hdr_connection_id linux_x86_64 wire) Sample.client = true /\
  Z.of_nat 1 < @scrape_num_hashes linux_x86_64 (recv_size wire) /\
  swarms Sample.seeded !! req_hash 1 wire = None /\
  send_results e = repeat Interrupted 0 ++ Returned 32 :: [] /\
  exists pkt,
    delivered (out_trace (Sample.step e Sample.client wire Sample.seeded)) = [pkt] /\
    field (8 + 12 * 1) 12 (pkt_data pkt) =
    [x07; x00; x00; x00; x08; x00; x00; x00; x09; x00; x00; x00].
Proof.
  intros wire e.
  assert (36 <= recv_size wire) as H1 by computed.
  assert (be_decode (field 8 4 wire) = action_scrape) as H2 by computed.
  assert (@verify_connection_id linux_x86_64 sha1_openssl Sample.startup_secret
            (@hdr_connection_id linux_x86_64 wire) Sample.client = true) as H3
    by computed.
  assert (Z.of_nat 1 < @scrape_num_hashes linux_x86_64 (recv_size wire)) as H4
    by computed.
  assert (swarms Sample.seeded !! req_hash 1 wire = None) as H5 by computed.
  split; [exact H1|]. split; [exact H2|]. split; [exact H3|].
  split; [exact H4|]. split; [exact H5|]. split; [reflexivity|].
  destruct (@scrape_absent_slot_not_zeroed linux_x86_64 sha1_openssl Sample.swarm_impl
              e Sample.client wire Sample.seeded 1%nat 0%nat 32 []
              H1 H2 H3 H4 H5 eq_refl) as (pkt & Hd & Hslot).
  exists pkt. unfold Sample.step. split; [exact Hd|].
  rewrite Hslot. vm_compute. reflexivity.
Defined.

(** The same scrape: two hashes, a response of 8 + 12 * 2 bytes. *)
Lemma scrape_response_length_witness :
  let wire := Sample.scrape_request Sample.token [Sample.H1; Sample.H2] [] in
  let e := Sample.oracle [Returned 32] 0 in
  36 <= recv_size wire /\
  be_decode (field 8 4 wire) = action_scrape /\
  @verify_connection_id linux_x86_64 sha1_openssl Sample.startup_secret
    (@hdr_connection_id linux_x86_64 wire) Sample.client = true /\
  0 <= @max_scrape_responses linux_x86_64 /\
  Forall (fun ev : send_event => Z.of_nat (length (pkt_data (fst ev))) = 32)
    (out_trace (Sample.step e Sample.client wire Sample.seeded)).
Proof.
  intros wire e.
  assert (36 <= recv_size wire) as H1 by computed.
  assert (be_decode (field 8 4 wire) = action_scrape) as H2 by computed.
  assert (@verify_connection_id linux_x86_64 sha1_openssl Sample.startup_secret
            (@hdr_connection_id linux_x86_64 wire) Sample.client = true) as H3
    by computed.
  assert (0 <= @max_scrape_responses linux_x86_64) as H4 by computed.
  pose proof (@scrape_response_length linux_x86_64 sha1_openssl Sample.swarm_impl
                e Sample.client wire Sample.seeded H1 H2 H3 H4)
    as (_ & Hlen & _).
  split; [exact H1|]. split; [exact H2|]. split; [exact H3|].
  split; [exact H4|]. unfold Sample.step.
  eapply Forall_impl; [exact Hlen|].
  intros ev ->. vm_compute. reflexivity.
Defined.

(** C8 as stated fails on a scrape that carries no hash: a 16-byte scrape
    datagram with a valid token has [min (floor ((16 - 16) / 20)) 74 = 0]
    hashes, which would call for a response of 8 bytes, but no send call
    is made and no datagram leaves the host. *)
Lemma scrape_without_hash_unanswered :
  let wire := Sample.scrape_request Sample.token [] [] in
  let o := Sample.step (Sample.oracle [Returned 8] 0) Sample.client wire
             Sample.seeded in
  recv_size wire = 16 /\
  be_decode (field 8 4 wire) = action_scrape /\
  @verify_connection_id linux_x86_64 sha1_openssl Sample.startup_secret
    (@hdr_connection_id linux_x86_64 wire) Sample.client = true /\
  Z.min ((recv_size wire - 16) / 20) (@max_scrape_responses linux_x86_64) = 0 /\
  out_trace o = [] /\
  ~ (exists pkt,
       delivered (out_trace o) = [pkt] /\
       Z.of_nat (length (pkt_data pkt)) = 8 + 12 * 0).
Proof.
  intros wire o.
  assert (out_trace o = []) as Htr by (vm_compute; reflexivity).
  split; [computed|]. split; [computed|]. split; [computed|].
  split; [computed|]. split; [exact Htr|].
  intros (pkt & Hd & _). rewrite Htr in Hd. discriminate Hd.
Qed.

(** A scrape for [H1] and [H2] followed by five stray bytes. *)
Lemma scrape_needs_a_hash_and_ignores_the_tail_witness :
  let tail := [x01; x02; x03; x04; x05] in
  let wire := Sample.scrape_request Sample.token [Sample.H1; Sample.H2] tail in
  let wire' := Sample.scrape_request Sample.token [Sample.H1; Sample.H2] [] in
  let e := Sample.oracle [Returned 32] 0 in
  16 <= recv_size wire /\
  be_decode (field 8 4 wire) = action_scrape /\
  @verify_connection_id linux_x86_64 sha1_openssl Sample.startup_secret
    (@hdr_connection_id linux_x86_64 wire) Sample.client = true /\
  36 <= recv_size wire /\
  out_trace (Sample.step e Sample.client wire' Sample.seeded) =
  out_trace (Sample.step e Sample.client wire Sample.seeded).
Proof.
  intros tail wire wire' e.
  assert (16 <= recv_size wire) as H1 by computed.
  assert (be_decode (field 8 4 wire) = action_scrape) as H2 by computed.
  assert (@verify_connection_id linux_x86_64 sha1_openssl Sample.startup_secret
            (@hdr_connection_id linux_x86_64 wire) Sample.client = true) as H3
    by computed.
  assert (36 <= recv_size wire) as H4 by computed.
  pose proof (@scrape_needs_a_hash_and_ignores_the_tail linux_x86_64 sha1_openssl
                Sample.swarm_impl e Sample.client wire Sample.seeded H1 H2)
    as (_ & Hlong).
  destruct (Hlong H3 H4) as (_ & _ & _ & Htr & _).
  split; [exact H1|]. split; [exact H2|]. split; [exact H3|].
  split; [exact H4|]. unfold Sample.step. rewrite <- Htr.
  do 3 f_equal.
Defined.

(** Scenarios A, D, E and F of the spec in one run of the loop: a
    connect, two announces, a scrape, with a short datagram and an
    interrupted [recvfrom] in between.  Four responses leave the host and
    the counters read 1 connect, 2 announces, 1 scrape, no error. *)
Example scenario_run :
  let events :=
    [(Sample.oracle [Returned 16] 0,
      Received Sample.client Sample.connect_request);
     (Sample.oracle [] 0, Received Sample.client [x00; x01; x02]);
     (Sample.oracle [Returned 20] 0,
      Received Sample.client (Sample.announce_request Sample.token 100 2 0));
     (Sample.oracle [] 0, RecvInterrupted);
     (Sample.oracle [Returned 20] 0,
      Received Sample.client (Sample.announce_request Sample.token 0 1 0));
     (Sample.oracle [Returned 32] 0,
      Received Sample.client
        (Sample.scrape_request Sample.token [Sample.H1; Sample.H2] []))] in
  let o := @tracker_thread linux_x86_64 sha1_openssl Sample.swarm_impl
             events Sample.fresh in
  map (fun p => length (pkt_data p)) (delivered (out_trace o)) =
    [16; 20; 20; 32]%nat /\
  out_control o = NextDatagram /\
  counters (out_state o) =
    {| connects := 1; announces := 2; scrapes := 1; errors := 0;
       bytes_out := 88; bytes_in := 271 |} /\
  option_map SpecSwarm.scrape (swarms (out_state o) !! Sample.H1) =
    Some (1, 1, 0).
Proof.
  intros events o.
  split; [vm_compute; reflexivity|]. split; [vm_compute; reflexivity|].
  split; vm_compute; reflexivity.
Qed.

(* ===================================================================== *)
(** * The worker loop as a whole *)
(* ===================================================================== *)

Section WorkerLoop.
Context {plat : Platform} {ssl : OpenSSL} {sw : SwarmImpl}.

Implicit Types (t : tracker) (e : env) (from : sockaddr_in) (wire : list byte).

(** The five ways an iteration that received a datagram can go. *)
Lemma iteration_cases e from wire t :
  let t1 := after_recv wire t in
  let o := tracker_iteration e (Received from wire) t in
  (recv_size wire < 16 /\ o = finish t1 NextDatagram) \/
  (16 <= recv_size wire /\
   (o = finish (count Errors 1 t1) NextDatagram \/
    (exists pkt, pkt_to pkt = from /\
       o = respond_then e pkt (count Connects 1 t1)) \/
    (exists pkt h s b,
       pkt_to pkt = from /\
       98 <= recv_size wire /\
       ntohl (hdr_action (buffer t1)) = action_announce /\
       verify_connection_id (secret t) (hdr_connection_id (buffer t1)) from = true /\
       o = sendmsg_once e pkt
             (with_swarms (<[h := s]> (swarms t))
                (with_buffer b (count Announces 1 t1)))) \/
    (exists pkt, pkt_to pkt = from /\
       o = respond_then e pkt (count Scrapes 1 t1)))).
Proof.
  intros t1 o. unfold o, tracker_iteration. fold t1.
  destruct (Z.ltb_spec (recv_size wire) 16) as [Hs|Hs]; [left; auto|].
  right. split; [assumption|]. unfold dispatch.
  destruct (Z.eqb_spec (ntohl (hdr_action (buffer t1))) action_connect) as [Hc|Hc].
  { unfold handle_connect.
    destruct (negb _); [left; reflexivity|].
    right; left. eexists. split; [|reflexivity]. reflexivity. }
  destruct (Z.eqb_spec (ntohl (hdr_action (buffer t1))) action_announce) as [Ha|Ha].
  { unfold handle_announce.
    destruct (verify_connection_id (secret t1) (hdr_connection_id (buffer t1)) from)
      eqn:Hv; [|left; reflexivity].
    cbn [negb].
    destruct (Z.ltb_spec (recv_size wire) 98) as [Hl|Hl]; [left; reflexivity|].
    right; right; left. cbv zeta.
    destruct (swarm_announce _ _ _) as [s' [[buf dl] sd]].
    eexists _, _, _, _.
    split; [|split; [assumption|split; [assumption|split; [exact Hv|reflexivity]]]].
    reflexivity. }
  destruct (Z.eqb_spec (ntohl (hdr_action (buffer t1))) action_scrape) as [Hsc|Hsc].
  { unfold handle_scrape.
    destruct (negb _); [left; reflexivity|].
    destruct (recv_size wire <? 16 + 20); [left; reflexivity|].
    right; right; right. eexists. split; [|reflexivity]. reflexivity. }
  left. reflexivity.
Qed.

Lemma respond_delivered_once os pkt s :
  (length (delivered (respond os pkt s).1.2) <= 1)%nat.
Proof.
  induction os as [|r os IH]; cbn; [lia|].
  destruct r as [n| |err]; cbn; [lia| |lia].
  destruct (respond os pkt s) as [[s' tr] res]. cbn in *. exact IH.
Qed.

Lemma respond_then_delivered_once e pkt t :
  (length (delivered (out_trace (respond_then e pkt t))) <= 1)%nat.
Proof.
  unfold respond_then.
  pose proof (respond_delivered_once (send_results e) pkt (counters t)) as H.
  destruct (respond (send_results e) pkt (counters t)) as [[s' tr] res]. exact H.
Qed.

Lemma sendmsg_once_delivered_once e pkt t :
  (length (delivered (out_trace (sendmsg_once e pkt t))) <= 1)%nat.
Proof.
  unfold sendmsg_once.
  destruct (send_results e) as [|[n| |err] rest]; cbn; lia.
Qed.

Lemma respond_bytes_out os pkt s :
  wrap_u32 (bytes_out (respond os pkt s).1.1) =
  wrap_u32 (bytes_out s + returned_bytes (respond os pkt s).1.2).
Proof.
  induction os as [|r os IH]; cbn.
  - now rewrite Z.add_0_r.
  - destruct r as [n| |err]; cbn.
    + unfold wrap_u32. rewrite Z.add_0_r. apply Z.mod_mod. lia.
    + destruct (respond os pkt s) as [[s' tr] res]. cbn in *. exact IH.
    + now rewrite Z.add_0_r.
Qed.

Lemma respond_then_bytes_out e pkt t :
  let o := respond_then e pkt t in
  wrap_u32 (bytes_out (counters (out_state o))) =
  wrap_u32 (bytes_out (counters t) + returned_bytes (out_trace o)).
Proof.
  unfold respond_then.
  pose proof (respond_bytes_out (send_results e) pkt (counters t)) as H.
  destruct (respond (send_results e) pkt (counters t)) as [[s' tr] res]. exact H.
Qed.

Lemma sendmsg_once_bytes_out e pkt t :
  let o := sendmsg_once e pkt t in
  wrap_u32 (bytes_out (counters (out_state o))) =
  wrap_u32 (bytes_out (counters t) + returned_bytes (out_trace o)).
Proof.
  unfold sendmsg_once.
  destruct (send_results e) as [|[n| |err] rest]; cbn;
    rewrite ?Z.add_0_r; try reflexivity.
  unfold wrap_u32. apply Z.mod_mod. lia.
Qed.

(** Whatever a datagram is and whatever becomes of it, its size is added
    to [bytes_in] (as a [uint32_t]). *)
Theorem every_datagram_counted_in_bytes_in e from wire t :
  bytes_in (counters (out_state (tracker_iteration e (Received from wire) t))) =
  wrap_u32 (bytes_in (counters t) + recv_size wire).
Proof.
  destruct (iteration_cases e from wire t)
    as [[_ Ho] | [_ [Ho | [(pkt & _ & Ho) | [(pkt & h & s & b & _ & _ & _ & _ & Ho)
                                           | (pkt & _ & Ho)]]]]];
    rewrite Ho; clear Ho.
  - reflexivity.
  - reflexivity.
  - match goal with |- context [respond_then e ?p ?st] =>
      destruct (respond_then_state e p st) as (_ & _ & _ & _ & _ & _ & _ & H) end.
    rewrite H. reflexivity.
  - match goal with |- context [sendmsg_once e ?p ?st] =>
      destruct (sendmsg_once_state e p st) as (_ & _ & _ & _ & _ & _ & _ & H) end.
    rewrite H. reflexivity.
  - match goal with |- context [respond_then e ?p ?st] =>
      destruct (respond_then_state e p st) as (_ & _ & _ & _ & _ & _ & _ & H) end.
    rewrite H. reflexivity.
Qed.

(** A datagram shorter than the header moves none of [connects],
    [announces], [scrapes], [errors]; any other datagram moves exactly one
    of them, by one. *)
Theorem datagram_counted_once e from wire t :
  let s := counters (out_state (tracker_iteration e (Received from wire) t)) in
  (recv_size wire < 16 /\
   connects s = connects (counters t) /\ announces s = announces (counters t) /\
   scrapes s = scrapes (counters t) /\ errors s = errors (counters t)) \/
  (16 <= recv_size wire /\
   exists c,
     (c = Connects \/ c = Announces \/ c = Scrapes \/ c = Errors) /\
     let s1 := sync_fetch_and_add c 1 (counters t) in
     connects s = connects s1 /\ announces s = announces s1 /\
     scrapes s = scrapes s1 /\ errors s = errors s1).
Proof.
  cbv zeta.
  destruct (iteration_cases e from wire t)
    as [[Hs Ho] | [Hs [Ho | [(pkt & _ & Ho) | [(pkt & h & s & b & _ & _ & _ & _ & Ho)
                                             | (pkt & _ & Ho)]]]]];
    rewrite Ho; clear Ho.
  - left. split; [assumption|]. repeat split; reflexivity.
  - right. split; [assumption|]. exists Errors. split; [tauto|].
    repeat split; reflexivity.
  - right. split; [assumption|]. exists Connects. split; [tauto|].
    match goal with |- context [respond_then e ?p ?st] =>
      destruct (respond_then_state e p st) as (_ & _ & _ & H1 & H2 & H3 & H4 & _) end.
    rewrite H1, H2, H3, H4. repeat split; reflexivity.
  - right. split; [assumption|]. exists Announces. split; [tauto|].
    match goal with |- context [sendmsg_once e ?p ?st] =>
      destruct (sendmsg_once_state e p st) as (_ & _ & _ & H1 & H2 & H3 & H4 & _) end.
    rewrite H1, H2, H3, H4. repeat split; reflexivity.
  - right. split; [assumption|]. exists Scrapes. split; [tauto|].
    match goal with |- context [respond_then e ?p ?st] =>
      destruct (respond_then_state e p st) as (_ & _ & _ & H1 & H2 & H3 & H4 & _) end.
    rewrite H1, H2, H3, H4. repeat split; reflexivity.
Qed.

(** Every send call of an iteration is addressed to the source of the
    datagram just received, and at most one datagram leaves the host per
    datagram received; a failed or interrupted [recvfrom] sends nothing. *)
Theorem replies_go_to_the_sender_once e ev t :
  let o := tracker_iteration e ev t in
  (length (delivered (out_trace o)) <= 1)%nat /\
  match ev with
  | Received from wire =>
      Forall (fun sev : send_event => pkt_to (fst sev) = from) (out_trace o)
  | _ => out_trace o = []
  end.
Proof.
  cbv zeta. destruct ev as [from wire| |errno]; [|cbn; split; [lia|reflexivity]..].
  destruct (iteration_cases e from wire t)
    as [[_ Ho] | [_ [Ho | [(pkt & Hto & Ho) | [(pkt & h & s & b & Hto & _ & _ & _ & Ho)
                                             | (pkt & Hto & Ho)]]]]];
    rewrite Ho; clear Ho.
  - cbn. split; [lia|constructor].
  - cbn. split; [lia|constructor].
  - split; [apply respond_then_delivered_once|].
    eapply Forall_impl; [apply respond_then_packets|]. now intros sev ->.
  - split; [apply sendmsg_once_delivered_once|].
    eapply Forall_impl; [apply sendmsg_once_packets|]. now intros sev ->.
  - split; [apply respond_then_delivered_once|].
    eapply Forall_impl; [apply respond_then_packets|]. now intros sev ->.
Qed.

Lemma returned_bytes_app (a b : list send_event) :
  returned_bytes (a ++ b) = returned_bytes a + returned_bytes b.
Proof.
  induction a as [|[pkt r] a IH]; [reflexivity|].
  unfold returned_bytes in *. cbn [app fold_right snd].
  destruct r; lia.
Qed.

Lemma iteration_bytes_out e ev t :
  let o := tracker_iteration e ev t in
  wrap_u32 (bytes_out (counters (out_state o))) =
  wrap_u32 (bytes_out (counters t) + returned_bytes (out_trace o)).
Proof.
  cbv zeta. destruct ev as [from wire| |errno];
    [|cbn; now rewrite Z.add_0_r..].
  destruct (iteration_cases e from wire t)
    as [[_ Ho] | [_ [Ho | [(pkt & _ & Ho) | [(pkt & h & s & b & _ & _ & _ & _ & Ho)
                                           | (pkt & _ & Ho)]]]]];
    rewrite Ho; clear Ho.
  - cbn. now rewrite Z.add_0_r.
  - cbn. now rewrite Z.add_0_r.
  - apply (respond_then_bytes_out e pkt (count Connects 1 (after_recv wire t))).
  - match goal with |- context [sendmsg_once e ?p ?st] =>
      apply (sendmsg_once_bytes_out e p st) end.
  - apply (respond_then_bytes_out e pkt (count Scrapes 1 (after_recv wire t))).
Qed.

(** Over a whole run of the loop, [bytes_out] grows (as a [uint32_t]) by
    exactly the sum of what the successful send calls returned: failed and
    interrupted sends are not counted. *)
Theorem bytes_out_counts_what_was_sent evs t :
  let o := tracker_thread evs t in
  wrap_u32 (bytes_out (counters (out_state o))) =
  wrap_u32 (bytes_out (counters t) + returned_bytes (out_trace o)).
Proof.
  cbv zeta. revert t. induction evs as [|[e ev] evs IH]; intros t.
  - cbn. now rewrite Z.add_0_r.
  - cbn [tracker_thread].
    pose proof (iteration_bytes_out e ev t) as H1. cbv zeta in H1.
    destruct (out_control (tracker_iteration e ev t)); try exact H1.
    cbn [out_state out_trace]. rewrite IH, returned_bytes_app.
    unfold wrap_u32 in *.
    rewrite Z.add_mod, H1, <- Z.add_mod by lia. f_equal. lia.
Qed.

Lemma iteration_frame e ev t :
  let o := tracker_iteration e ev t in
  secret (out_state o) = secret t /\
  allow_alternate_ip (out_state o) = allow_alternate_ip t /\
  dom (swarms t) ⊆ dom (swarms (out_state o)).
Proof.
  cbv zeta. destruct ev as [from wire| |errno]; [|cbn; auto..].
  destruct (iteration_cases e from wire t)
    as [[_ Ho] | [_ [Ho | [(pkt & _ & Ho) | [(pkt & h & s & b & _ & _ & _ & _ & Ho)
                                           | (pkt & _ & Ho)]]]]];
    rewrite Ho; clear Ho.
  - cbn. auto.
  - cbn. auto.
  - unfold respond_then. destruct (respond _ _ _) as [[s' tr] res]. cbn. auto.
  - unfold sendmsg_once.
    destruct (send_results e) as [|[n| |err] rest]; cbn;
      (split; [reflexivity|split; [reflexivity|apply dom_insert_subseteq]]).
  - unfold respond_then. destruct (respond _ _ _) as [[s' tr] res]. cbn. auto.
Qed.

Lemma thread_frame evs t :
  let o := tracker_thread evs t in
  secret (out_state o) = secret t /\
  allow_alternate_ip (out_state o) = allow_alternate_ip t /\
  dom (swarms t) ⊆ dom (swarms (out_state o)).
Proof.
  cbv zeta. revert t. induction evs as [|[e ev] evs IH]; intros t.
  - cbn. auto.
  - cbn [tracker_thread].
    destruct (iteration_frame e ev t) as (H1 & H2 & H3).
    destruct (out_control (tracker_iteration e ev t)); auto.
    cbn [out_state].
    destruct (IH (out_state (tracker_iteration e ev t))) as (H4 & H5 & H6).
    split; [congruence|]. split; [congruence|]. etransitivity; eassumption.
Qed.

(** The worker never touches the secret: whatever it has processed, a
    connection id is accepted for an endpoint exactly when it was accepted
    at the start.  Connection ids do not expire while the tracker runs. *)
Theorem connection_ids_do_not_expire evs t (conn_id : Z) from :
  verify_connection_id (secret (out_state (tracker_thread evs t))) conn_id from =
  verify_connection_id (secret t) conn_id from.
Proof. destruct (thread_frame evs t) as (-> & _). reflexivity. Qed.

(** The worker only ever adds swarms: an info-hash that has a swarm keeps
    one, whatever datagrams follow. *)
Theorem swarms_are_never_removed evs t (h : list byte) :
  is_Some (swarms t !! h) ->
  is_Some (swarms (out_state (tracker_thread evs t)) !! h).
Proof.
  intros H. destruct (thread_frame evs t) as (_ & _ & Hd).
  apply elem_of_dom, Hd, elem_of_dom, H.
Qed.

(** Running the loop over [evs1 ++ evs2] is running it over [evs1] and,
    unless the thread has ended, over [evs2] from the state reached, the
    send calls being those of the first run followed by those of the
    second. *)
Theorem tracker_thread_app evs1 evs2 t :
  tracker_thread (evs1 ++ evs2) t =
  let o1 := tracker_thread evs1 t in
  match out_control o1 with
  | NextDatagram =>
      let o2 := tracker_thread evs2 (out_state o1) in
      {| out_state := out_state o2;
         out_trace := out_trace o1 ++ out_trace o2;
         out_control := out_control o2 |}
  | _ => o1
  end.
Proof.
  cbv zeta. revert t. induction evs1 as [|[e ev] evs1 IH]; intros t.
  - cbn. now destruct (tracker_thread evs2 t).
  - cbn [app tracker_thread].
    destruct (out_control (tracker_iteration e ev t)) eqn:Hc;
      cbn [out_control]; rewrite ?Hc; try reflexivity.
    rewrite IH. cbn [out_state out_control out_trace].
    destruct (out_control (tracker_thread evs1 (out_state (tracker_iteration e ev t))))
      eqn:Hc1; cbn [out_state out_control out_trace];
      rewrite ?Hc1, ?app_assoc; reflexivity.
Qed.

(** A [recvfrom] interrupted by a signal leaves no mark: the run is the
    same with and without it. *)
Theorem interrupted_recvfrom_is_transparent evs1 e evs2 t :
  tracker_thread (evs1 ++ (e, RecvInterrupted) :: evs2) t =
  tracker_thread (evs1 ++ evs2) t.
Proof.
  revert t. induction evs1 as [|[e1 ev1] evs1 IH]; intros t.
  - cbn [app tracker_thread tracker_iteration finish out_control out_state
         out_trace].
    now destruct (tracker_thread evs2 t).
  - cbn [app tracker_thread]. now rewrite IH.
Qed.

(** The swarm table changes only on an announce of at least 98 bytes with
    a valid connection id: after any other datagram it is what it was. *)
Theorem only_an_accepted_announce_changes_the_table e from wire t :
  swarms (out_state (tracker_iteration e (Received from wire) t)) = swarms t \/
  (98 <= recv_size wire /\
   be_decode (field 8 4 wire) = action_announce /\
   verify_connection_id (secret t) (hdr_connection_id wire) from = true).
Proof.
  destruct (iteration_cases e from wire t)
    as [[_ Ho] | [Hs [Ho | [(pkt & _ & Ho) | [(pkt & h & s & b & _ & Hl & Ha & Hv & Ho)
                                            | (pkt & _ & Ho)]]]]].
  - left. rewrite Ho. reflexivity.
  - left. rewrite Ho. reflexivity.
  - left. rewrite Ho.
    match goal with |- context [respond_then e ?p ?st] =>
      destruct (respond_then_state e p st) as (H & _) end.
    rewrite H. reflexivity.
  - right. split; [assumption|].
    rewrite action_after_recv in Ha by assumption.
    rewrite connection_id_after_recv in Hv by assumption. auto.
  - left. rewrite Ho.
    match goal with |- context [respond_then e ?p ?st] =>
      destruct (respond_then_state e p st) as (H & _) end.
    rewrite H. reflexivity.
Qed.



End WorkerLoop.

(* ===================================================================== *)
(** * Scrape responses, connection ids and [respond], once more *)
(* ===================================================================== *)

Section WorkerDetails.
Context {plat : Platform} {ssl : OpenSSL} {sw : SwarmImpl}.

Implicit Types (t : tracker) (e : env) (from : sockaddr_in) (wire : list byte).

(** A scrape response is never longer than the request it answers: it is
    at least 8 bytes shorter.  The tracker does not amplify scrapes. *)
Theorem scrape_reply_is_shorter_than_the_request e from wire t :
  36 <= recv_size wire ->
  be_decode (field 8 4 wire) = action_scrape ->
  verify_connection_id (secret t) (hdr_connection_id wire) from = true ->
  Forall (fun ev : send_event =>
            Z.of_nat (length (pkt_data (fst ev))) + 8 <= recv_size wire)
         (out_trace (tracker_iteration e (Received from wire) t)).
Proof.
  intros H Ha Hv. rewrite iteration_scrape_accepted by assumption.
  eapply Forall_impl; [apply respond_then_packets|].
  intros ev ->. cbn [fst]. unfold scrape_packet. cbv zeta. cbn [pkt_data].
  rewrite length_firstn.
  pose proof (scrape_num_hashes_spec (recv_size wire) ltac:(lia)) as Hn.
  pose proof (Z.mul_div_le (recv_size wire - 16) 20 ltac:(lia)) as Hk.
  pose proof (Z.div_pos (recv_size wire - 16) 20 ltac:(lia) ltac:(lia)) as Hk0.
  lia.
Qed.

(** A scrape response starts with action 2 and the request's transaction
    id, verbatim. *)
Theorem scrape_response_header e from wire t :
  36 <= recv_size wire ->
  be_decode (field 8 4 wire) = action_scrape ->
  verify_connection_id (secret t) (hdr_connection_id wire) from = true ->
  0 <= max_scrape_responses ->
  Forall (fun ev : send_event =>
            field 0 4 (pkt_data (fst ev)) = be_encode 4 2 /\
            field 4 4 (pkt_data (fst ev)) = field 12 4 wire)
         (out_trace (tracker_iteration e (Received from wire) t)).
Proof.
  intros H Ha Hv Hmax. rewrite iteration_scrape_accepted by assumption.
  eapply Forall_impl; [apply respond_then_packets|].
  intros ev ->. cbn [fst].
  assert (0 <= scrape_num_hashes (recv_size wire)) as Hn.
  { rewrite scrape_num_hashes_spec by lia.
    pose proof (Z.div_pos (recv_size wire - 16) 20 ltac:(lia) ltac:(lia)). lia. }
  rewrite scrape_packet_data by lia.
  rewrite <- !app_assoc.
  assert (length (field 12 4 wire) = 4%nat) as Hl
    by (apply field_length_wire; simpl; lia).
  split.
  - pose proof (field_prefix (be_encode 4 action_scrape)) as Hp.
    rewrite be_encode_length in Hp. apply Hp.
  - pose proof (field_app_r 0 4 (be_encode 4 action_scrape)) as Hr.
    rewrite be_encode_length in Hr. cbn [Nat.add] in Hr. rewrite Hr.
    pose proof (field_prefix (field 12 4 wire)) as Hp.
    rewrite Hl in Hp. apply Hp.
Qed.

Lemma store_mod (n : nat) (z : Z) : store n (z mod 256 ^ Z.of_nat n) = store n z.
Proof.
  unfold store, be_encode. now rewrite le_encode_mod.
Qed.

(** For each endpoint exactly one 64-bit value is accepted as connection
    id: the one [generate_connection_id] returns. *)
Theorem valid_connection_id_is_unique (Hssl : SHA1_contract)
    (sec : SHA_CTX) (conn_id : Z) from :
  verify_connection_id sec conn_id from = true <->
  conn_id mod 2 ^ 64 = generate_connection_id sec from.
Proof.
  rewrite verify_connection_id_spec.
  rewrite <- (generate_connection_id_bytes Hssl sec from).
  change (2 ^ 64) with (256 ^ Z.of_nat 8). split.
  - intros Hst. rewrite <- load_store, Hst, load_store.
    unfold generate_connection_id. apply Z.mod_small.
    assert (forall bs, length bs = 8%nat -> 0 <= load bs < 256 ^ Z.of_nat 8) as Hrange.
    { intros bs Hl. pose proof (load_store (length bs) (load bs)) as E.
      rewrite store_load, Hl in E. rewrite E.
      apply Z.mod_pos_bound. lia. }
    apply Hrange.
    rewrite length_firstn, gen_secret_digest_length by assumption. reflexivity.
  - intros Hm. rewrite <- Hm. symmetry. apply store_mod.
Qed.

(** What [respond] does is decided by the first result that is not an
    interruption: every call before it resends the same packet; a count
    is added to [bytes_out] and [respond] returns 0; an error leaves the
    counters alone and [respond] returns 1.  While only interruptions
    come, [respond] has not returned. *)
Theorem respond_outcome k rest pkt s :
  respond (repeat Interrupted k) pkt s = (s, repeat (pkt, Interrupted) k, None) /\
  (forall n,
     respond (repeat Interrupted k ++ Returned n :: rest) pkt s =
     (sync_fetch_and_add BytesOut n s,
      repeat (pkt, Interrupted) k ++ [(pkt, Returned n)], Some false)) /\
  (forall err,
     respond (repeat Interrupted k ++ Failed err :: rest) pkt s =
     (s, repeat (pkt, Interrupted) k ++ [(pkt, Failed err)], Some true)).
Proof.
  split; [|split].
  - induction k as [|k IH]; cbn; [reflexivity|]. now rewrite IH.
  - intros n. apply respond_retries_until_sent.
  - intros err. apply respond_retries_until_failed.
Qed.

End WorkerDetails.

(* ===================================================================== *)
(** * [main]: the secret *)
(* ===================================================================== *)

Lemma testbit_of_mod_eq (a b m j : Z) :
  a mod 2 ^ m = b mod 2 ^ m -> 0 <= j < m -> Z.testbit a j = Z.testbit b j.
Proof.
  intros H Hj.
  rewrite <- (Z.mod_pow2_bits_low a m j), <- (Z.mod_pow2_bits_low b m j) by lia.
  now rewrite H.
Qed.

Lemma secret_key_step_bit (key r n : Z) :
  0 <= n < 64 ->
  Z.testbit (secret_key_step key r) n =
  xorb (Z.testbit key (n - 8)) (Z.testbit r n).
Proof.
  intros Hn. unfold secret_key_step, wrap_u64.
  rewrite Z.lxor_spec, !Z.mod_pow2_bits_low, Z.shiftl_spec by lia.
  reflexivity.
Qed.

Lemma secret_key_step_high (key r n : Z) :
  64 <= n -> Z.testbit (secret_key_step key r) n = false.
Proof.
  intros Hn. unfold secret_key_step, wrap_u64.
  rewrite Z.lxor_spec, !Z.mod_pow2_bits_high by lia. reflexivity.
Qed.

(** The low [m + 8] bits after a step depend on the low [m] bits of the
    key before it and on the low [m + 8] bits of what [rand()] returned. *)
Lemma secret_key_step_low (m key key' r r' : Z) :
  0 <= m <= 56 ->
  key mod 2 ^ m = key' mod 2 ^ m ->
  r mod 2 ^ (m + 8) = r' mod 2 ^ (m + 8) ->
  secret_key_step key r mod 2 ^ (m + 8) = secret_key_step key' r' mod 2 ^ (m + 8).
Proof.
  intros Hm Hk Hr. apply Z.bits_inj'. intros n Hn.
  destruct (Z.lt_ge_cases n (m + 8)) as [Hlt|Hge].
  - rewrite !Z.mod_pow2_bits_low, !secret_key_step_bit by lia.
    f_equal.
    + destruct (Z.lt_ge_cases (n - 8) 0) as [Hneg|Hpos].
      * now rewrite !Z.testbit_neg_r by lia.
      * apply (testbit_of_mod_eq _ _ m); [assumption | lia].
    + apply (testbit_of_mod_eq _ _ (m + 8)); [assumption | lia].
  - now rewrite !Z.mod_pow2_bits_high by lia.
Qed.

Lemma secret_key_step_range (key r : Z) :
  secret_key_step key r mod 2 ^ 64 = secret_key_step key r.
Proof.
  apply Z.bits_inj'. intros n Hn.
  destruct (Z.lt_ge_cases n 64) as [Hlt|Hge].
  - now rewrite Z.mod_pow2_bits_low by lia.
  - now rewrite Z.mod_pow2_bits_high, secret_key_step_high by lia.
Qed.

(** Of the eight values [rand()] returns while the key is built, the
    [i]-th one (from 0) reaches the key only through its low [8 * (i + 1)]
    bits: the higher bits are shifted out of the 64-bit key.  Two [rand()]
    sequences that agree on those bits give the same key. *)
Theorem secret_key_uses_low_bits_only (rand rand' : nat -> Z) :
  (forall i : nat, (i < 8)%nat ->
     rand i mod 2 ^ (8 * (Z.of_nat i + 1)) = rand' i mod 2 ^ (8 * (Z.of_nat i + 1))) ->
  gen_secret_key rand = gen_secret_key rand'.
Proof.
  intros H. unfold gen_secret_key. cbn [seq map fold_left].
  rewrite <- (secret_key_step_range _ (rand 7%nat)).
  rewrite <- (secret_key_step_range _ (rand' 7%nat)).
  apply (secret_key_step_low 56); [lia| |exact (H 7%nat ltac:(lia))].
  apply (secret_key_step_low 48); [lia| |exact (H 6%nat ltac:(lia))].
  apply (secret_key_step_low 40); [lia| |exact (H 5%nat ltac:(lia))].
  apply (secret_key_step_low 32); [lia| |exact (H 4%nat ltac:(lia))].
  apply (secret_key_step_low 24); [lia| |exact (H 3%nat ltac:(lia))].
  apply (secret_key_step_low 16); [lia| |exact (H 2%nat ltac:(lia))].
  apply (secret_key_step_low 8); [lia| |exact (H 1%nat ltac:(lia))].
  apply (secret_key_step_low 0); [lia|reflexivity|exact (H 0%nat ltac:(lia))].
Qed.

Section StartedTracker.
Context {plat : Platform} {ssl : OpenSSL}.

(** With the secret [main] sets up, the digest behind every connection id
    is SHA-1 over 14 bytes: the 8 bytes of the key as they sit in memory,
    the 4 address bytes and the 2 port bytes of the endpoint. *)
Theorem digest_of_started_tracker (Hssl : SHA1_contract)
    (SHA1_Init : SHA_CTX) (rand : nat -> Z) (from : sockaddr_in) :
  gen_secret_digest (init_secret SHA1_Init rand) from =
    SHA1_Final (SHA1_Update SHA1_Init
                  (store 8 (gen_secret_key rand) ++
                   store 4 (sin_addr from) ++ store 2 (sin_port from))) /\
  length (store 8 (gen_secret_key rand) ++
          store 4 (sin_addr from) ++ store 2 (sin_port from)) = 14%nat.
Proof.
  split.
  - unfold gen_secret_digest, init_secret. destruct Hssl as [_ Happ].
    now rewrite !Happ.
  - rewrite !length_app, !store_length. reflexivity.
Qed.

End StartedTracker.

(* ===================================================================== *)
(** * [main]: the stats counters *)
(* ===================================================================== *)

Lemma counter_value_add (c c' : counter) (v : Z) (s : stats) :
  counter_value c (sync_fetch_and_add c' v s) =
  if bool_decide (c' = c) then wrap_u32 (counter_value c s + v)
  else counter_value c s.
Proof. destruct c, c'; reflexivity. Qed.

Lemma counter_value_reset (c : counter) (last s : stats) :
  counter_value c (reset_stats last s) =
  wrap_u32 (counter_value c s - counter_value c last).
Proof. destruct c; reflexivity. Qed.

Lemma worker_adds_value (c : counter) (adds : list (counter * Z)) (s : stats) :
  wrap_u32 (counter_value c (worker_adds adds s)) =
  wrap_u32 (counter_value c s + added_to c adds).
Proof.
  revert s. induction adds as [|[c' v] adds IH]; intros s.
  - cbn. now rewrite Z.add_0_r.
  - cbn [worker_adds fold_left added_to fst snd].
    change (fold_left _ adds ?x) with (worker_adds adds x).
    rewrite IH, counter_value_add.
    unfold wrap_u32. destruct (bool_decide (c' = c)).
    + rewrite Zplus_mod_idemp_l. f_equal; lia.
    + f_equal; lia.
Qed.

(** The controller reads a counter, and later subtracts what it read.
    What the workers added in between is not lost: after the subtraction
    the counter holds exactly the sum of those additions (as a
    [uint32_t]), so with no worker activity it is back at zero. *)
Theorem stats_reset_keeps_concurrent_updates
    (c : counter) (last : stats) (adds : list (counter * Z)) :
  counter_value c (reset_stats last (worker_adds adds last)) =
  wrap_u32 (added_to c adds).
Proof.
  rewrite counter_value_reset. unfold wrap_u32.
  rewrite <- Zminus_mod_idemp_l.
  pose proof (worker_adds_value c adds last) as H. unfold wrap_u32 in H.
  rewrite H, Zminus_mod_idemp_l. f_equal; lia.
Qed.

(* ===================================================================== *)
(** * [main]: the purge sweep *)
(* ===================================================================== *)

Section PurgeSweepFacts.
Context {sw : SwarmImpl}.
Variable purge_stale : swarm -> Z -> swarm.

Implicit Types (order : list (list byte)) (m : gmap (list byte) swarm).

Lemma purge_at_dom now order next m :
  dom (purge_at purge_stale now order next m) = dom m.
Proof.
  unfold purge_at. destruct (order !! next); [apply dom_alter_L | reflexivity].
Qed.

Lemma purge_loop_dom now order n next m :
  dom (purge_loop purge_stale now order n next m).2 = dom m.
Proof.
  revert next m. induction n as [|n IH]; intros next m; [reflexivity|].
  cbn [purge_loop].
  destruct (_ =? length order)%nat; [reflexivity|].
  now rewrite IH, purge_at_dom.
Qed.

(** The sweep never adds or removes a swarm: the table has the same
    info-hashes after any number of turns of the controller loop. *)
Theorem purge_sweep_keeps_every_swarm nows order next m :
  dom (purge_ticks purge_stale nows order next m).2 = dom m.
Proof.
  revert next m. induction nows as [|now nows IH]; intros next m; [reflexivity|].
  cbn [purge_ticks].
  destruct (purge_tick purge_stale now order next m) as [next' m'] eqn:E.
  rewrite IH.
  change m' with (next', m').2. rewrite <- E.
  unfold purge_tick. apply purge_loop_dom.
Qed.

Lemma purge_loop_first now order n next m k :
  NoDup order -> (next < length order)%nat -> order !! 0%nat = Some k ->
  (purge_loop purge_stale now order n next m).2 !! k = m !! k /\
  ((purge_loop purge_stale now order n next m).1 <= length order)%nat.
Proof.
  intros Hnd. revert next m. induction n as [|n IH]; intros next m Hlt Hk.
  - cbn. split; [reflexivity|lia].
  - cbn [purge_loop].
    rewrite (proj2 (Nat.eqb_neq next (length order))) by lia.
    destruct (Nat.eqb_spec (S next) (length order)) as [He|Hne].
    + cbn. split; [reflexivity|lia].
    + destruct (IH (S next) (purge_at purge_stale now order (S next) m)
                  ltac:(lia) Hk) as [Hl Hc].
      split; [|exact Hc]. rewrite Hl. unfold purge_at.
      destruct (order !! S next) as [k'|] eqn:Hk'; [|reflexivity].
      apply lookup_alter_ne. intros ->.
      pose proof (NoDup_lookup _ _ _ _ Hnd Hk Hk'). discriminate.
Qed.

Lemma purge_tick_first now order next m k :
  NoDup order -> (next <= length order)%nat -> order !! 0%nat = Some k ->
  (purge_tick purge_stale now order next m).2 !! k = m !! k /\
  ((purge_tick purge_stale now order next m).1 <= length order)%nat.
Proof.
  intros Hnd Hle Hk. unfold purge_tick.
  assert (0 < length order)%nat as Hpos.
  { destruct order; [discriminate | cbn; lia]. }
  apply purge_loop_first; try assumption.
  destruct (Nat.eqb_spec next (length order)) as [He|Hne]; cbn [andb].
  - rewrite (proj2 (Nat.ltb_lt 0 (length order))) by lia. lia.
  - lia.
Qed.

(** The swarm at [begin()] of the table is never purged: the sweep steps
    the iterator before it purges, and breaks off at [end()] instead of
    wrapping, so however many turns the controller loop takes, the first
    swarm in iteration order is left as it was. *)
Theorem purge_sweep_skips_the_first_swarm nows order next m k :
  NoDup order -> (next <= length order)%nat -> order !! 0%nat = Some k ->
  (purge_ticks purge_stale nows order next m).2 !! k = m !! k.
Proof.
  intros Hnd. revert next m. induction nows as [|now nows IH]; intros next m Hle Hk.
  - reflexivity.
  - cbn [purge_ticks].
    destruct (purge_tick_first now order next m k Hnd Hle Hk) as [Hl Hc].
    destruct (purge_tick purge_stale now order next m) as [next' m'].
    cbn [fst snd] in *. rewrite IH by assumption. exact Hl.
Qed.

Lemma purge_loop_range now order n next m :
  NoDup order -> (next < length order)%nat ->
  (purge_loop purge_stale now order n next m).1 =
    Nat.min (next + n) (length order) /\
  forall (j : nat) k, order !! j = Some k ->
    (purge_loop purge_stale now order n next m).2 !! k =
    if (next <? j)%nat && (j <=? next + n)%nat
    then (fun s => purge_stale s now) <$> m !! k
    else m !! k.
Proof.
  intros Hnd. revert next m. induction n as [|n IH]; intros next m Hlt.
  - cbn [purge_loop fst snd]. split; [lia|]. intros j k Hj.
    destruct (Nat.ltb_spec next j), (Nat.leb_spec j (next + 0)); cbn [andb];
      try reflexivity; lia.
  - cbn [purge_loop].
    rewrite (proj2 (Nat.eqb_neq next (length order))) by lia.
    destruct (Nat.eqb_spec (S next) (length order)) as [He|Hne].
    + cbn [fst snd]. split; [lia|]. intros j k Hj.
      apply lookup_lt_Some in Hj.
      destruct (Nat.ltb_spec next j); cbn [andb]; [lia | reflexivity].
    + destruct (IH (S next) (purge_at purge_stale now order (S next) m)
                  ltac:(lia)) as [Hc Hl].
      split; [rewrite Hc; lia|]. intros j k Hj. rewrite (Hl j k Hj).
      unfold purge_at.
      destruct (order !! S next) as [k'|] eqn:Hk';
        [|apply lookup_ge_None in Hk'; lia].
      destruct (Nat.eq_dec j (S next)) as [->|Hjn].
      * assert (k' = k) as -> by congruence.
        rewrite (proj2 (Nat.ltb_ge (S next) (S next))) by lia. cbn [andb].
        rewrite (proj2 (Nat.ltb_lt next (S next))) by lia.
        rewrite (proj2 (Nat.leb_le (S next) (next + S n))) by lia. cbn [andb].
        apply lookup_alter_eq.
      * assert (k' <> k) as Hkn.
        { intros ->. apply Hjn. exact (NoDup_lookup _ _ _ _ Hnd Hj Hk'). }
        rewrite lookup_alter_ne by assumption.
        destruct (Nat.ltb_spec (S next) j), (Nat.leb_spec j (S next + n)),
                 (Nat.ltb_spec next j), (Nat.leb_spec j (next + S n));
          cbn [andb]; try reflexivity; lia.
Qed.

(** One turn of the sweep purges the swarms at the (at most 20) positions
    that follow the iterator, up to the end of the table, and no other;
    the iterator is left on the last swarm purged, or at the end. *)
Theorem purge_sweep_range now order next m :
  NoDup order -> (next <= length order)%nat ->
  Z.of_nat (length order) < 2 ^ 31 ->
  let start := if (next =? length order)%nat then 0%nat else next in
  (purge_tick purge_stale now order next m).1 =
    Nat.min (start + 20) (length order) /\
  forall (j : nat) k, order !! j = Some k ->
    (purge_tick purge_stale now order next m).2 !! k =
    if (start <? j)%nat && (j <=? start + 20)%nat
    then (fun s => purge_stale s now) <$> m !! k
    else m !! k.
Proof.
  intros Hnd Hle Hsmall start.
  assert (Z.to_nat (num_to_purge order) = Nat.min (length order) 20) as Hnum.
  { unfold num_to_purge, wrap_int. rewrite Z.mod_small by lia. lia. }
  unfold purge_tick. rewrite Hnum.
  destruct (Nat.eq_dec (length order) 0%nat) as [Hz|Hnz].
  { assert (next = 0%nat) as Hn0 by lia.
    unfold start. rewrite Hn0, Hz. cbn. split; [reflexivity|].
    intros j k Hj. apply lookup_lt_Some in Hj. lia. }
  assert (0 < length order)%nat as Hpos by lia.
  assert ((if (next =? length order)%nat && (0 <? length order)%nat
           then 0%nat else next) = start) as ->.
  { unfold start. rewrite (proj2 (Nat.ltb_lt 0 (length order))) by lia.
    now rewrite andb_true_r. }
  assert (start < length order)%nat as Hstart.
  { unfold start. destruct (Nat.eqb_spec next (length order)); lia. }
  destruct (purge_loop_range now order (Nat.min (length order) 20) start m
              Hnd Hstart) as [Hc Hl].
  split; [rewrite Hc; lia|].
  intros j k Hj. rewrite (Hl j k Hj).
  pose proof (lookup_lt_Some _ _ _ Hj) as Hjl.
  destruct (Nat.ltb_spec start j),
           (Nat.leb_spec j (start + Nat.min (length order) 20)),
           (Nat.leb_spec j (start + 20));
    cbn [andb]; try reflexivity; lia.
Qed.

End PurgeSweepFacts.

(* ===================================================================== *)
(** * The further theorems on concrete runs *)
(* ===================================================================== *)

(** The swarm of [H1] survives a scrape, a bad connect and an announce
    for another client. *)
Lemma swarms_are_never_removed_witness :
  let evs :=
    [(Sample.oracle [Returned 32] 0,
      Received Sample.client
        (Sample.scrape_request Sample.token [Sample.H1; Sample.H2] []));
     (Sample.oracle [] 0,
      Received Sample.client (repeat x00 16));
     (Sample.oracle [Failed 100] 0,
      Received Sample.client (Sample.announce_request Sample.token 5 3 0))] in
  is_Some (swarms Sample.seeded !! Sample.H1) /\
  is_Some (swarms (out_state
                     (@tracker_thread linux_x86_64 sha1_openssl Sample.swarm_impl
                        evs Sample.seeded)) !! Sample.H1).
Proof.
  intros evs.
  assert (is_Some (swarms Sample.seeded !! Sample.H1)) as H
    by (eexists; vm_compute; reflexivity).
  split; [exact H|].
  exact (@swarms_are_never_removed linux_x86_64 sha1_openssl Sample.swarm_impl
           evs Sample.seeded Sample.H1 H).
Defined.



(** Scenario F of the spec: a 56-byte scrape for two hashes gets 32
    bytes back. *)
Lemma scrape_reply_is_shorter_than_the_request_witness :
  let wire := Sample.scrape_request Sample.token [Sample.H1; Sample.H2] [] in
  let e := Sample.oracle [Returned 32] 0 in
  36 <= recv_size wire /\
  be_decode (field 8 4 wire) = action_scrape /\
  @verify_connection_id linux_x86_64 sha1_openssl Sample.startup_secret
    (@hdr_connection_id linux_x86_64 wire) Sample.client = true /\
  Forall (fun ev : send_event => Z.of_nat (length (pkt_data (fst ev))) + 8 <= 56)
         (out_trace (Sample.step e Sample.client wire Sample.seeded)).
Proof.
  intros wire e.
  assert (36 <= recv_size wire) as H1 by computed.
  assert (be_decode (field 8 4 wire) = action_scrape) as H2 by computed.
  assert (@verify_connection_id linux_x86_64 sha1_openssl Sample.startup_secret
            (@hdr_connection_id linux_x86_64 wire) Sample.client = true) as H3
    by computed.
  pose proof (@scrape_reply_is_shorter_than_the_request linux_x86_64 sha1_openssl
                Sample.swarm_impl e Sample.client wire Sample.seeded H1 H2 H3)
    as Hlen.
  split; [exact H1|]. split; [exact H2|]. split; [exact H3|].
  unfold Sample.step. eapply Forall_impl; [exact Hlen|].
  intros ev Hev. assert (recv_size wire = 56) as E by computed.
  rewrite E in Hev. exact Hev.
Defined.

Lemma scrape_response_header_witness :
  let wire := Sample.scrape_request Sample.token [Sample.H1; Sample.H2] [] in
  let e := Sample.oracle [Returned 32] 0 in
  36 <= recv_size wire /\
  be_decode (field 8 4 wire) = action_scrape /\
  @verify_connection_id linux_x86_64 sha1_openssl Sample.startup_secret
    (@hdr_connection_id linux_x86_64 wire) Sample.client = true /\
  0 <= @max_scrape_responses linux_x86_64 /\
  Forall (fun ev : send_event =>
            field 4 4 (pkt_data (fst ev)) = be_encode 4 0x55)
         (out_trace (Sample.step e Sample.client wire Sample.seeded)).
Proof.
  intros wire e.
  assert (36 <= recv_size wire) as H1 by computed.
  assert (be_decode (field 8 4 wire) = action_scrape) as H2 by computed.
  assert (@verify_connection_id linux_x86_64 sha1_openssl Sample.startup_secret
            (@hdr_connection_id linux_x86_64 wire) Sample.client = true) as H3
    by computed.
  assert (0 <= @max_scrape_responses linux_x86_64) as H4 by computed.
  pose proof (@scrape_response_header linux_x86_64 sha1_openssl
                Sample.swarm_impl e Sample.client wire Sample.seeded H1 H2 H3 H4)
    as Hhdr.
  split; [exact H1|]. split; [exact H2|]. split; [exact H3|]. split; [exact H4|].
  unfold Sample.step. eapply Forall_impl; [exact Hhdr|].
  intros ev [_ ->]. vm_compute. reflexivity.
Defined.

(** The token of the sample client plus 2^64 is accepted too: it is the
    same 64-bit value. *)
Lemma valid_connection_id_is_unique_witness :
  @SHA1_contract sha1_openssl /\
  let T := @generate_connection_id linux_x86_64 sha1_openssl
             Sample.startup_secret Sample.client in
  @verify_connection_id linux_x86_64 sha1_openssl Sample.startup_secret
    (T + 2 ^ 64) Sample.client = true /\
  @verify_connection_id linux_x86_64 sha1_openssl Sample.startup_secret
    (T + 1) Sample.client <> true.
Proof.
  split; [exact sha1_openssl_contract|]. intros T. split.
  - apply (@valid_connection_id_is_unique linux_x86_64 sha1_openssl
             sha1_openssl_contract).
    vm_compute. reflexivity.
  - intros Hv.
    apply (@valid_connection_id_is_unique linux_x86_64 sha1_openssl
             sha1_openssl_contract) in Hv.
    vm_compute in Hv. discriminate Hv.
Defined.

(** Clearing the bits of [rand()] that are shifted out changes the
    sequence but not the key. *)
Lemma secret_key_uses_low_bits_only_witness :
  (forall i : nat, (i < 8)%nat ->
     SampleMain.rand_full i mod 2 ^ (8 * (Z.of_nat i + 1)) =
     SampleMain.rand_low i mod 2 ^ (8 * (Z.of_nat i + 1))) /\
  SampleMain.rand_full 0%nat <> SampleMain.rand_low 0%nat /\
  gen_secret_key SampleMain.rand_full = gen_secret_key SampleMain.rand_low.
Proof.
  assert (forall i : nat, (i < 8)%nat ->
            SampleMain.rand_full i mod 2 ^ (8 * (Z.of_nat i + 1)) =
            SampleMain.rand_low i mod 2 ^ (8 * (Z.of_nat i + 1))) as H.
  { intros i Hi.
    do 8 (destruct i as [|i]; [vm_compute; reflexivity|]). lia. }
  split; [exact H|]. split; [vm_compute; congruence|].
  exact (secret_key_uses_low_bits_only _ _ H).
Defined.

(** The secret of the concrete run is the one [main] builds from
    [rand_bytes], and the digest for the sample client is SHA-1 over the
    14 bytes 01 23 45 67 89 ab cd ef, c0 00 02 01, 1a e1. *)
Lemma digest_of_started_tracker_witness :
  @SHA1_contract sha1_openssl /\
  @init_secret linux_x86_64 sha1_openssl Sha1.SHA1_Init SampleMain.rand_bytes =
    Sample.startup_secret /\
  @gen_secret_digest linux_x86_64 sha1_openssl
    (@init_secret linux_x86_64 sha1_openssl Sha1.SHA1_Init SampleMain.rand_bytes)
    Sample.client =
  Sha1.final (Sha1.update Sha1.SHA1_Init
                ([x01; x23; x45; x67; x89; xab; xcd; xef] ++
                 [xc0; x00; x02; x01] ++ [x1a; xe1])).
Proof.
  split; [exact sha1_openssl_contract|]. split; [vm_compute; reflexivity|].
  etransitivity.
  - exact (proj1 (@digest_of_started_tracker linux_x86_64 sha1_openssl
                    sha1_openssl_contract Sha1.SHA1_Init SampleMain.rand_bytes
                    Sample.client)).
  - vm_compute. reflexivity.
Defined.

(** Two stale swarms, two turns of the sweep at times far past the
    timeout: the peer of [H2] is gone, the swarm of [H1], first in the
    table, still has its peer. *)
Lemma purge_sweep_skips_the_first_swarm_witness :
  NoDup SampleMain.order /\
  (2 <= length SampleMain.order)%nat /\
  SampleMain.order !! 0%nat = Some Sample.H1 /\
  (SampleMain.sweep [10000; 20000] 2).2 !! Sample.H1 = Some SampleMain.stale /\
  option_map SpecSwarm.peers ((SampleMain.sweep [10000; 20000] 2).2 !! Sample.H2) =
    Some [].
Proof.
  assert (NoDup SampleMain.order) as Hnd
    by (apply (bool_decide_unpack _); vm_compute; exact I).
  assert (2 <= length SampleMain.order)%nat as Hle by (cbn; lia).
  split; [exact Hnd|]. split; [exact Hle|]. split; [reflexivity|]. split.
  - etransitivity.
    + exact (@purge_sweep_skips_the_first_swarm Sample.swarm_impl
               (spec_purge_stale 2700) [10000; 20000] SampleMain.order 2
               SampleMain.table Sample.H1 Hnd Hle eq_refl).
    + vm_compute. reflexivity.
  - vm_compute. reflexivity.
Defined.

(** One turn on the same table from the end position: the iterator
    wraps, [H2] at position 1 is purged, and the iterator ends at the
    end again. *)
Lemma purge_sweep_range_witness :
  NoDup SampleMain.order /\
  (2 <= length SampleMain.order)%nat /\
  Z.of_nat (length SampleMain.order) < 2 ^ 31 /\
  (SampleMain.sweep [10000] 2).1 = 2%nat /\
  (SampleMain.sweep [10000] 2).2 !! Sample.H2 =
    Some (spec_purge_stale 2700 SampleMain.stale 10000).
Proof.
  assert (NoDup SampleMain.order) as Hnd
    by (apply (bool_decide_unpack _); vm_compute; exact I).
  assert (2 <= length SampleMain.order)%nat as Hle by (cbn; lia).
  assert (Z.of_nat (length SampleMain.order) < 2 ^ 31) as Hs by (cbn; lia).
  destruct (@purge_sweep_range Sample.swarm_impl (spec_purge_stale 2700)
              10000 SampleMain.order 2 SampleMain.table Hnd Hle Hs)
    as [Hc Hl].
  split; [exact Hnd|]. split; [exact Hle|]. split; [exact Hs|]. split.
  - exact Hc.
  - exact (Hl 1%nat Sample.H2 eq_refl).
Defined.
